(** * Astrodynamics and photometry sampling core: [services/physics.ts]

    A shallow embedding of the two numerical routines of the dashboard,
    [calculateOrbitPath] and [simulateLightCurve], and the properties their
    specification states about them.

    JavaScript numbers are embedded as real numbers ([R]): [Math.cos],
    [Math.sin], [Math.sqrt], [Math.PI] and [Math.abs] become [cos], [sin],
    [sqrt], [PI] and [Rabs], the remainder operator [%] becomes [js_rem]
    (truncated remainder).  Loop counters and [points] are natural numbers,
    injected into [R] by [INR] where the source divides them.  Operations
    which leave the reals in JavaScript (division by zero, square root of a
    negative number) are tracked by a second, checked evaluation
    ([Checked]).  [Math.random] reads the implicit, process-wide generator;
    it is modelled by explicit state passing over a [RandomSource].
    Rounding is not modelled: every statement is about exact real
    arithmetic. *)

From Stdlib Require Import Reals Lra Lia List Arith.
From Stdlib Require String Ascii.
Import ListNotations.

Local Open Scope R_scope.

(** ** Data model ([types.ts]) *)

Record OrbitalElements := mkOrbitalElements {
  epoch : option R;
  e : R;   (* Eccentricity *)
  a : R;   (* Semi-major axis (AU) *)
  i : R;   (* Inclination (deg) *)
  om : R;  (* Longitude of Ascending Node (deg) *)
  w : R;   (* Argument of Perihelion (deg) *)
  ma : R;  (* Mean Anomaly (deg) *)
  n : option R;   (* Mean Motion *)
  per : option R  (* Period *)
}.

(** [[number, number, number]] *)
Definition Point3D : Type := (R * R * R)%type.

(** [{ time: number; flux: number }] *)
Record Sample := mkSample { time : R; flux : R }.

(** ** [calculateOrbitPath] *)

Module Orbit.

(** [const d2r = Math.PI / 180] *)
Definition d2r : R := PI / 180.

(** [const scale = 10] *)
Definition scale : R := 10.

(** The three hand-expanded expressions of the rotation to heliocentric
    ecliptic coordinates (the [x], [y] and [z] of the loop body). *)
Definition helio_x (wRad iRad omRad P Q : R) : R :=
  (cos wRad * cos omRad - sin wRad * sin omRad * cos iRad) * P +
  (- sin wRad * cos omRad - cos wRad * sin omRad * cos iRad) * Q.

Definition helio_y (wRad iRad omRad P Q : R) : R :=
  (cos wRad * sin omRad + sin wRad * cos omRad * cos iRad) * P +
  (- sin wRad * sin omRad + cos wRad * cos omRad * cos iRad) * Q.

Definition helio_z (wRad iRad omRad P Q : R) : R :=
  (sin wRad * sin iRad) * P +
  (cos wRad * sin iRad) * Q.

(** One iteration of the loop body: the point pushed at counter [j].
    Division and square root are total over [R]: where the source computes
    [NaN] ([points = 0], or [e * e > 1]) this definition still gives a
    real point, which is not the value of the code; [Checked] tells those
    cases apart. *)
Definition orbit_point (elements : OrbitalElements) (points j : nat) : Point3D :=
  let iRad := i elements * d2r in
  let omRad := om elements * d2r in
  let wRad := w elements * d2r in
  let E := (INR j / INR points) * 2 * PI in
  let P := a elements * (cos E - e elements) in
  let Q := a elements * sqrt (1 - e elements * e elements) * sin E in
  let x := helio_x wRad iRad omRad P Q in
  let y := helio_y wRad iRad omRad P Q in
  let z := helio_z wRad iRad omRad P Q in
  (x * scale, z * scale, - y * scale).

(** [for (let j = ...; j <= points; j++) path.push(...)], with [fuel] the
    number of iterations still to run. *)
Fixpoint orbit_loop (elements : OrbitalElements) (points : nat)
    (fuel j : nat) (path : list Point3D) : list Point3D :=
  match fuel with
  | O => path
  | S fuel' =>
      orbit_loop elements points fuel' (S j)
        (path ++ [orbit_point elements points j])
  end.

(** The counter starts at [0] and the loop runs while [j <= points], that
    is [points + 1] times. *)
Definition calculateOrbitPath (elements : OrbitalElements) (points : nat)
  : list Point3D :=
  orbit_loop elements points (S points) 0%nat [].

(** The default value of the second parameter ([points = 100]). *)
Definition calculateOrbitPath_default (elements : OrbitalElements)
  : list Point3D :=
  calculateOrbitPath elements 100.

(** Euclidean distance of a point from the origin. *)
Definition norm3 (p : Point3D) : R :=
  let '(x, y, z) := p in sqrt (x * x + y * y + z * z).

End Orbit.

(** ** The rotation as the specification words it

    The specification describes the rotation of the perifocal vector as the
    3-1-3 Euler composition: rotate by [w] about the orbital-plane normal
    (the third axis), then by [i] about the line of nodes (the first axis),
    then by [om] about the reference-pole axis (the third axis again).
    These definitions follow that wording, not the source; they are compared
    with [Orbit.helio_x], [Orbit.helio_y] and [Orbit.helio_z] below. *)

Module Euler313.

Definition Vec3 : Type := (R * R * R)%type.

(** A 3x3 matrix, row by row. *)
Definition Mat3 : Type := (Vec3 * Vec3 * Vec3)%type.

Definition dot (u v : Vec3) : R :=
  let '(u1, u2, u3) := u in
  let '(v1, v2, v3) := v in
  u1 * v1 + u2 * v2 + u3 * v3.

Definition mat_vec (m : Mat3) (v : Vec3) : Vec3 :=
  let '(r1, r2, r3) := m in (dot r1 v, dot r2 v, dot r3 v).

Definition col (m : Mat3) (k : nat) : Vec3 :=
  let '((m11, m12, m13), (m21, m22, m23), (m31, m32, m33)) := m in
  match k with
  | O => (m11, m21, m31)
  | S O => (m12, m22, m32)
  | _ => (m13, m23, m33)
  end.

Definition mat_mul (m1 m2 : Mat3) : Mat3 :=
  let '(r1, r2, r3) := m1 in
  let row r := (dot r (col m2 0), dot r (col m2 1), dot r (col m2 2)) in
  (row r1, row r2, row r3).

(** Elementary rotation by [t] about the third axis. *)
Definition rot3 (t : R) : Mat3 :=
  ((cos t, - sin t, 0),
   (sin t,   cos t, 0),
   (0,       0,     1)).

(** Elementary rotation by [t] about the first axis. *)
Definition rot1 (t : R) : Mat3 :=
  ((1, 0,     0),
   (0, cos t, - sin t),
   (0, sin t,   cos t)).

(** The composed rotation matrix. *)
Definition euler313 (wRad iRad omRad : R) : Mat3 :=
  mat_mul (rot3 omRad) (mat_mul (rot1 iRad) (rot3 wRad)).

(** The three rotations applied one after the other to the perifocal
    vector [(P, Q, 0)]. *)
Definition rotate_perifocal (wRad iRad omRad P Q : R) : Vec3 :=
  mat_vec (rot3 omRad) (mat_vec (rot1 iRad) (mat_vec (rot3 wRad) (P, Q, 0))).

Definition norm_sq (v : Vec3) : R := dot v v.

End Euler313.

(** ** Checked evaluation of [calculateOrbitPath]

    In JavaScript a division by zero and the square root of a negative
    number do not raise: they yield [NaN] or an infinity, which are not real
    numbers.  The checked evaluation runs the same loop and answers [None]
    as soon as one operation leaves the reals. *)

Module Checked.

Definition div (x y : R) : option R :=
  if Req_dec_T y 0 then None else Some (x / y).

Definition sqrt (x : R) : option R :=
  if Rlt_dec x 0 then None else Some (R_sqrt.sqrt x).

Definition bind {A B : Type} (c : option A) (k : A -> option B) : option B :=
  match c with
  | Some x => k x
  | None => None
  end.

Notation "x <- c ;; k" := (bind c (fun x => k))
  (at level 61, c at next level, right associativity).

Definition orbit_point_checked (elements : OrbitalElements) (points j : nat)
  : option Point3D :=
  d2r <- div PI 180 ;;
  let iRad := i elements * d2r in
  let omRad := om elements * d2r in
  let wRad := w elements * d2r in
  q <- div (INR j) (INR points) ;;
  let E := q * 2 * PI in
  let P := a elements * (cos E - e elements) in
  s <- sqrt (1 - e elements * e elements) ;;
  let Q := a elements * s * sin E in
  let x := Orbit.helio_x wRad iRad omRad P Q in
  let y := Orbit.helio_y wRad iRad omRad P Q in
  let z := Orbit.helio_z wRad iRad omRad P Q in
  Some (x * Orbit.scale, z * Orbit.scale, - y * Orbit.scale).

Fixpoint orbit_loop_checked (elements : OrbitalElements) (points : nat)
    (fuel j : nat) (path : list Point3D) : option (list Point3D) :=
  match fuel with
  | O => Some path
  | S fuel' =>
      p <- orbit_point_checked elements points j ;;
      orbit_loop_checked elements points fuel' (S j) (path ++ [p])
  end.

Definition calculateOrbitPath_checked (elements : OrbitalElements) (points : nat)
  : option (list Point3D) :=
  orbit_loop_checked elements points (S points) 0%nat [].

End Checked.

(** ** [Math.random]

    The generator is global: the function under study receives no seed and
    no generator.  Its state is the sequence of numbers it is going to
    return together with the position reached in it. *)

Record RandomSource := mkRandomSource {
  draws : nat -> R;
  cursor : nat
}.

(** One call of [Math.random()]: the next number, and the generator
    advanced. *)
Definition Math_random (g : RandomSource) : R * RandomSource :=
  (draws g (cursor g), mkRandomSource (draws g) (S (cursor g))).

(** The generator after [k] calls. *)
Definition advance (k : nat) (g : RandomSource) : RandomSource :=
  mkRandomSource (draws g) (cursor g + k).

(** [Math.random] returns a number in [0, 1). *)
Definition valid_source (g : RandomSource) : Prop :=
  forall k : nat, 0 <= draws g k < 1.

(** ** The remainder operator [%]

    [x % y] is [x - y * q] where [q] is the quotient [x / y] truncated
    towards zero. *)

Definition js_trunc (x : R) : R :=
  if Rle_dec 0 x then IZR (Int_part x) else - IZR (Int_part (- x)).

Definition js_rem (x y : R) : R := x - y * js_trunc (x / y).

(** ** [simulateLightCurve] *)

Module LightCurve.

(** [const totalPoints = 200] *)
Definition totalPoints : nat := 200.

(** [const durationDays = durationHours / 24] *)
Definition durationDays (durationHours : R) : R := durationHours / 24.

(** [const totalTime = period * 2] *)
Definition totalTime (period : R) : R := period * 2.

(** [const time = (i / totalPoints) * totalTime] *)
Definition sample_time (period : R) (i : nat) : R :=
  (INR i / INR totalPoints) * totalTime period.

(** [const timeInPeriod = time % period] *)
Definition timeInPeriod (period : R) (i : nat) : R :=
  js_rem (sample_time period i) period.

(** [const transitCenter = period / 2] *)
Definition transitCenter (period : R) : R := period / 2.

(** The value of [flux] when the [if] statement has run, before the noise
    is added. *)
Definition transit_flux (period depth durationHours : R) (i : nat) : R :=
  let flux := 1.0 in
  if Rlt_dec (Rabs (timeInPeriod period i - transitCenter period))
             (durationDays durationHours / 2)
  then
    let flux := 1.0 - depth in
    let distFromCenter := Rabs (timeInPeriod period i - transitCenter period) in
    flux + (distFromCenter / (durationDays durationHours / 2)) * (depth * 0.1)
  else flux.

(** [(Math.random() - 0.5) * 0.0005], for the number [u] drawn. *)
Definition jitter (u : R) : R := (u - 0.5) * 0.0005.

(** One iteration of the loop body: the sample pushed at counter [i] and
    the generator after its single draw. *)
Definition lc_body (period depth durationHours : R) (i : nat)
    (g : RandomSource) : Sample * RandomSource :=
  let time := sample_time period i in
  let flux := transit_flux period depth durationHours i in
  let (u, g') := Math_random g in
  let flux := flux + jitter u in
  (mkSample time flux, g').

(** [for (let i = ...; i < totalPoints; i++) data.push(...)], with [fuel]
    the number of iterations still to run. *)
Fixpoint lc_loop (period depth durationHours : R) (fuel i : nat)
    (g : RandomSource) (data : list Sample) : list Sample * RandomSource :=
  match fuel with
  | O => (data, g)
  | S fuel' =>
      let (s, g') := lc_body period depth durationHours i g in
      lc_loop period depth durationHours fuel' (S i) g' (data ++ [s])
  end.

Definition simulateLightCurve (period depth durationHours : R)
    (g : RandomSource) : list Sample * RandomSource :=
  lc_loop period depth durationHours totalPoints 0%nat g [].

(** The sample the loop pushes at counter [k] when the call starts from
    generator [g]. *)
Definition sample_at (period depth durationHours : R) (g : RandomSource)
    (k : nat) : Sample :=
  mkSample (sample_time period k)
           (transit_flux period depth durationHours k
            + jitter (draws g (cursor g + k))).

End LightCurve.

(** ** Concrete inputs used in the examples below *)

(** The scenario of the specification: a circular orbit in the reference
    plane. *)
Definition unit_circle : OrbitalElements :=
  mkOrbitalElements None 0 1 0 0 0 0 None None.

(** The orbit drawn for the Earth in [OrbitViz3D.tsx]. *)
Definition earth : OrbitalElements :=
  mkOrbitalElements None 0.0167 1 0 0 102 0 None None.

(** A generator which always returns one half. *)
Definition constant_source : RandomSource :=
  mkRandomSource (fun _ => 0.5) 0.

(** A generator which returns zero two hundred times and one half
    afterwards. *)
Definition two_phase_source : RandomSource :=
  mkRandomSource (fun k => if (k <? 200)%nat then 0 else 0.5) 0.

(** A sample used as the default of [nth]. *)
Definition no_sample : Sample := mkSample 0 0.

Definition origin : Point3D := (0, 0, 0).

(** ** The orbital plane

    The unit normal of the plane of the orbit, written in the frame of the
    returned points (first coordinate [x], second [z], third [- y]); it
    depends on the inclination and on the longitude of the ascending node
    only.  It is used to state that the path is planar. *)

Definition orbit_normal (elements : OrbitalElements) : Point3D :=
  let iRad := i elements * Orbit.d2r in
  let omRad := om elements * Orbit.d2r in
  (sin omRad * sin iRad, cos iRad, cos omRad * sin iRad).

(** The orbit of the demonstration asteroid of [App.tsx] ([MOCK_ASTEROID]). *)
Definition apophis_orbit : OrbitalElements :=
  mkOrbitalElements None 0.191 0.922 3.33 204.4 126.4 99.3 None (Some 323.5).

(** ** Checked evaluation of [simulateLightCurve]

    The same loop with every division and the remainder checked: [x % 0] is
    [NaN] in JavaScript. *)

Module CheckedLightCurve.
Import Checked LightCurve.

Definition rem (x y : R) : option R :=
  if Req_dec_T y 0 then None else Some (js_rem x y).

Definition transit_flux_checked (period depth durationHours : R) (i : nat)
  : option R :=
  durationDays <- div durationHours 24 ;;
  q <- div (INR i) (INR totalPoints) ;;
  let time := q * totalTime period in
  let flux := 1.0 in
  timeInPeriod <- rem time period ;;
  transitCenter <- div period 2 ;;
  half <- div durationDays 2 ;;
  if Rlt_dec (Rabs (timeInPeriod - transitCenter)) half
  then
    let flux := 1.0 - depth in
    let distFromCenter := Rabs (timeInPeriod - transitCenter) in
    half' <- div durationDays 2 ;;
    ratio <- div distFromCenter half' ;;
    Some (flux + ratio * (depth * 0.1))
  else Some flux.

Definition lc_body_checked (period depth durationHours : R) (i : nat)
    (g : RandomSource) : option (Sample * RandomSource) :=
  q <- div (INR i) (INR totalPoints) ;;
  let time := q * totalTime period in
  flux <- transit_flux_checked period depth durationHours i ;;
  let (u, g') := Math_random g in
  let flux := flux + jitter u in
  Some (mkSample time flux, g').

Fixpoint lc_loop_checked (period depth durationHours : R) (fuel i : nat)
    (g : RandomSource) (data : list Sample)
  : option (list Sample * RandomSource) :=
  match fuel with
  | O => Some (data, g)
  | S fuel' =>
      r <- lc_body_checked period depth durationHours i g ;;
      let (s, g') := r in
      lc_loop_checked period depth durationHours fuel' (S i) g' (data ++ [s])
  end.

Definition simulateLightCurve_checked (period depth durationHours : R)
    (g : RandomSource) : option (list Sample * RandomSource) :=
  lc_loop_checked period depth durationHours totalPoints 0%nat g [].

End CheckedLightCurve.

(** ** [App.tsx]: number formatting and the callers of the physics core *)

Module App.
Import String Ascii.
Local Open Scope string_scope.

(** A JavaScript number: a real, one of the two infinities, or [NaN]. *)
Inductive JsNumber : Type :=
| Fin (x : R)
| PosInf
| NegInf
| NaN.

(** The argument of [formatNumber]:
    [number | string | undefined | null]. *)
Inductive Value : Type :=
| VNumber (x : JsNumber)
| VString (s : string)
| VUndefined
| VNull.

(** [isNaN(num)] *)
Definition isNaN (num : JsNumber) : bool :=
  match num with
  | NaN => true
  | _ => false
  end.

(** [Math.abs(num) >= 1 || num === 0] *)
Definition abs_ge_1_or_zero (num : JsNumber) : bool :=
  match num with
  | Fin x =>
      if Rle_dec 1 (Rabs x) then true
      else if Req_dec_T x 0 then true else false
  | PosInf | NegInf => true
  | NaN => false
  end.

(** A nonempty run of the character [0] up to the end of the string:
    the part [0+$] of the regular expression. *)
Fixpoint zeros_to_end (s : string) : bool :=
  match s with
  | EmptyString => false
  | String c EmptyString => Ascii.eqb c "0"
  | String c rest => Ascii.eqb c "0" && zeros_to_end rest
  end.

(** Whether [/\.?0+$/] matches at the very start of [s]: an optional dot,
    then zeros up to the end. *)
Definition matches_here (s : string) : bool :=
  match s with
  | String c rest =>
      if Ascii.eqb c "." then zeros_to_end rest else zeros_to_end s
  | EmptyString => false
  end.

(** [s.replace(/\.?0+$/, "")]: the leftmost match, if any, is removed; as
    the expression is anchored at the end, everything from the start of the
    match goes. *)
Fixpoint strip_trailing_zeros (s : string) : string :=
  if matches_here s then EmptyString
  else
    match s with
    | EmptyString => EmptyString
    | String c rest => String c (strip_trailing_zeros rest)
    end.

(** A run of [n] characters [0]. *)
Fixpoint zeros (n : nat) : string :=
  match n with
  | O => EmptyString
  | S n' => String "0" (zeros n')
  end.

Section FormatNumber.

(** The built-in conversions [formatNumber] calls; they belong to the
    JavaScript runtime and are taken as parameters:
    [parseFloat(value)],
    [num.toLocaleString('en-US', { minimumFractionDigits: 0,
    maximumFractionDigits: 2 })] and [num.toFixed(20)]. *)
Variable parseFloat : string -> JsNumber.
Variable toLocaleString_en_US : JsNumber -> string.
Variable toFixed_20 : JsNumber -> string.

Definition formatNumber (value : Value) : string :=
  match value with
  | VUndefined | VNull => "-"
  | _ =>
      let num :=
        match value with
        | VString s => parseFloat s
        | VNumber x => x
        | _ => NaN
        end in
      if isNaN num then
        match value with
        | VString s => s
        | _ => "-"
        end
      else if abs_ge_1_or_zero num then
        toLocaleString_en_US num
      else
        strip_trailing_zeros (toFixed_20 num)
  end.

End FormatNumber.

(** The value handed to the "Period" card of [renderAsteroidView]:
    [orbital_data?.a ? orbital_data.a ** 1.5 * 365.25 : 0].  A zero or
    missing [a] is falsy; a negative base with the exponent [1.5] gives
    [NaN]. *)
Definition period_card (orbital_data : option OrbitalElements) : JsNumber :=
  match orbital_data with
  | None => Fin 0
  | Some elements =>
      if Req_dec_T (a elements) 0 then Fin 0
      else if Rlt_dec (a elements) 0 then NaN
      else Fin (Rpower (a elements) 1.5 * 365.25)
  end.

(** [Omit<ExoplanetCandidate, 'lightCurveData'>] *)
Record ExoplanetBasic := mkExoplanetBasic {
  basic_ticId : string;
  basic_period : R;          (* days *)
  basic_transitDepth : R;    (* ppm or percent *)
  basic_radius : R;          (* Earth Radii *)
  basic_stellarTemp : R;     (* Kelvin *)
  basic_habitabilityScore : R;
  basic_isHabitableZone : bool;
  basic_notes : string
}.

(** [ExoplanetCandidate] *)
Record ExoplanetCandidate := mkExoplanetCandidate {
  basic : ExoplanetBasic;
  lightCurveData : list Sample
}.

(** The two statements of [handleFetchExoplanet] which follow the call of
    the analysis service:
    [const lc = simulateLightCurve(basicData.period,
    basicData.transitDepth / 100, 2.5)] and
    [setExoplanetData({ ...basicData, lightCurveData: lc })]. *)
Definition withLightCurve (basicData : ExoplanetBasic) (g : RandomSource)
  : ExoplanetCandidate * RandomSource :=
  let (lc, g') :=
    LightCurve.simulateLightCurve
      (basic_period basicData) (basic_transitDepth basicData / 100) 2.5 g in
  (mkExoplanetCandidate basicData lc, g').

(** The value [analyzeExoplanetTic] falls back to. *)
Definition fallback_exoplanet (ticId : string) : ExoplanetBasic :=
  mkExoplanetBasic ticId 3.5 1.2 1.4 5200 45 false
    "Simulation fallback active.".

End App.

(** ** [services/gemini.ts] and the asteroid handler of [App.tsx]

    The generative service and [JSON.parse] are outside the repository:
    they are parameters.  A call of [ai.models.generateContent] either
    throws or returns a response whose [text] may be missing;
    [JSON.parse(...) as T] either throws or returns a value of the declared
    type [T] (the cast is not checked at run time).  [console.error] is not
    modelled. *)

Module Gemini.
Import String.
Local Open Scope string_scope.

(** The result of a computation which may throw; an error is represented
    by its message. *)
Inductive Outcome (A : Type) : Type :=
| Returned (x : A)
| Thrown (message : string).
Arguments Returned {A} x.
Arguments Thrown {A} message.

Definition and_then {A B : Type} (c : Outcome A) (k : A -> Outcome B) : Outcome B :=
  match c with
  | Returned x => k x
  | Thrown m => Thrown m
  end.

(** [try { body } catch (error) { handler(error) }] *)
Definition try_catch {A : Type} (body : Outcome A)
    (handler : string -> Outcome A) : Outcome A :=
  match body with
  | Returned x => Returned x
  | Thrown m => handler m
  end.

Notation "x <- c ;; k" := (and_then c (fun x => k))
  (at level 61, c at next level, right associativity).

(** ** Data model ([types.ts]) *)

Record CloseApproach := mkCloseApproach {
  close_approach_date : string;
  kilometers_per_second : string;   (* relative_velocity *)
  astronomical : string;            (* miss_distance *)
  lunar : string;                   (* miss_distance *)
  orbiting_body : string
}.

Record AsteroidData := mkAsteroidData {
  id : string;
  name : string;
  designation : string;
  absolute_magnitude_h : R;
  diameter_km_est_min : R;
  diameter_km_est_max : R;
  is_potentially_hazardous : bool;
  close_approach_data : list CloseApproach;
  orbital_data : OrbitalElements
}.

Inductive CompositionType : Type := C_Type | S_Type | M_Type | Unknown.

Record MiningAnalysis := mkMiningAnalysis {
  compositionType : CompositionType;
  estimatedValueUSD : R;
  accessibilityScore : R;
  miningFeasibility : R;
  resources : list string;
  scientificReasoning : string
}.

Inductive ThreatLevel : Type := None_ | Low | Medium | High | Critical.

Record ThreatAssessment := mkThreatAssessment {
  moid : R;
  torinoScale : R;
  palermoScale : R;
  impactProbability : R;
  threatLevel : ThreatLevel;
  summary : string
}.

(** [!apiKey]: the key is missing or empty. *)
Definition falsy (apiKey : option string) : bool :=
  match apiKey with
  | None => true
  | Some k => String.eqb k ""
  end.

(** [getAI]: the client is represented by the key it is built with. *)
Definition getAI (apiKey : option string) : Outcome string :=
  match apiKey with
  | None => Thrown "API Key not found"
  | Some k =>
      if String.eqb k "" then Thrown "API Key not found" else Returned k
  end.

(** [response.text || '{}'] *)
Definition text_or_braces (text : option string) : string :=
  match text with
  | None => "{}"
  | Some t => if String.eqb t "" then "{}" else t
  end.

(** The fallback of [analyzeAsteroidResources]. *)
Definition fallback_mining : MiningAnalysis :=
  mkMiningAnalysis Unknown 0 0 0 []
    "AI analysis unavailable. Please check API key.".

(** The fallback of [assessThreat]. *)
Definition fallback_threat : ThreatAssessment :=
  mkThreatAssessment 0 0 (-2) 0 None_ "Assessment unavailable.".

(** [MOCK_ASTEROID] of [App.tsx]. *)
Definition MOCK_ASTEROID : AsteroidData :=
  mkAsteroidData "3542519" "Apophis" "99942" 19.09 0.29 0.65 true
    [mkCloseApproach "2029-04-13" "7.43" "0.00025" "0.1" "Earth"]
    apophis_orbit.

(** [haystack.includes(needle)] *)
Fixpoint prefix_of (needle haystack : string) : bool :=
  match needle, haystack with
  | EmptyString, _ => true
  | String c n', String c' h' => Ascii.eqb c c' && prefix_of n' h'
  | String _ _, EmptyString => false
  end.

Fixpoint includes (haystack needle : string) : bool :=
  prefix_of needle haystack ||
  match haystack with
  | EmptyString => false
  | String _ rest => includes rest needle
  end.

(** [toLowerCase] on the strings made of ASCII characters. *)
Definition ascii_lower (c : Ascii.ascii) : Ascii.ascii :=
  let code := Ascii.nat_of_ascii c in
  if ((65 <=? code)%nat && (code <=? 90)%nat)%bool
  then Ascii.ascii_of_nat (code + 32)
  else c.

Fixpoint ascii_toLowerCase (s : string) : string :=
  match s with
  | EmptyString => EmptyString
  | String c rest => String (ascii_lower c) (ascii_toLowerCase rest)
  end.

(** The part of the state of [App] the asteroid handler reads and
    writes. *)
Record AppState := mkAppState {
  asteroidQuery : string;
  asteroidData : option AsteroidData;
  miningData : option MiningAnalysis;
  threatData : option ThreatAssessment;
  loading : bool;
  error : option string
}.

Definition setAsteroidData (v : option AsteroidData) (st : AppState) : AppState :=
  mkAppState (asteroidQuery st) v (miningData st) (threatData st)
    (loading st) (error st).

Definition setMiningData (v : option MiningAnalysis) (st : AppState) : AppState :=
  mkAppState (asteroidQuery st) (asteroidData st) v (threatData st)
    (loading st) (error st).

Definition setThreatData (v : option ThreatAssessment) (st : AppState) : AppState :=
  mkAppState (asteroidQuery st) (asteroidData st) (miningData st) v
    (loading st) (error st).

Definition setLoading (v : bool) (st : AppState) : AppState :=
  mkAppState (asteroidQuery st) (asteroidData st) (miningData st)
    (threatData st) v (error st).

Definition setError (v : option string) (st : AppState) : AppState :=
  mkAppState (asteroidQuery st) (asteroidData st) (miningData st)
    (threatData st) (loading st) v.

Section Service.

(** [process.env.API_KEY] *)
Variable apiKey : option string.

(** The four requests to the service, by the client and by what the prompt
    is built from; the answer is [response.text]. *)
Variable generate_asteroid : string -> string -> Outcome (option string).
Variable generate_mining : string -> AsteroidData -> Outcome (option string).
Variable generate_threat : string -> AsteroidData -> Outcome (option string).
Variable generate_exoplanet : string -> string -> Outcome (option string).

(** [JSON.parse(...) as T] for the four result types. *)
Variable parse_asteroid : string -> Outcome AsteroidData.
Variable parse_mining : string -> Outcome MiningAnalysis.
Variable parse_threat : string -> Outcome ThreatAssessment.
Variable parse_exoplanet : string -> Outcome App.ExoplanetBasic.

(** [String.prototype.toLowerCase] *)
Variable toLowerCase : string -> string.

Definition fetchAsteroidData (query : string) : Outcome AsteroidData :=
  try_catch
    (ai <- getAI apiKey ;;
     response <- generate_asteroid ai query ;;
     parse_asteroid (text_or_braces response))
    (fun error => Thrown error).

Definition analyzeAsteroidResources (data : AsteroidData)
  : Outcome MiningAnalysis :=
  try_catch
    (ai <- getAI apiKey ;;
     response <- generate_mining ai data ;;
     parse_mining (text_or_braces response))
    (fun _ => Returned fallback_mining).

Definition assessThreat (data : AsteroidData) : Outcome ThreatAssessment :=
  try_catch
    (ai <- getAI apiKey ;;
     response <- generate_threat ai data ;;
     parse_threat (text_or_braces response))
    (fun _ => Returned fallback_threat).

Definition analyzeExoplanetTic (ticId : string) : Outcome App.ExoplanetBasic :=
  try_catch
    (ai <- getAI apiKey ;;
     response <- generate_exoplanet ai ticId ;;
     parse_exoplanet (text_or_braces response))
    (fun _ => Returned (App.fallback_exoplanet ticId)).

(** The [try] block of [handleFetchAsteroid]: the state when it stops, and
    whether it stopped by an exception. *)
Definition fetch_try (st : AppState) : AppState * Outcome unit :=
  if falsy apiKey then (st, Thrown "Please set API_KEY")
  else
    match fetchAsteroidData (asteroidQuery st) with
    | Thrown m => (st, Thrown m)
    | Returned data =>
        let st := setAsteroidData (Some data) st in
        match analyzeAsteroidResources data, assessThreat data with
        | Returned mining, Returned threat =>
            let st := setMiningData (Some mining) st in
            let st := setThreatData (Some threat) st in
            (st, Returned tt)
        | Thrown m, _ => (st, Thrown m)
        | _, Thrown m => (st, Thrown m)
        end
    end.

(** The [catch] block of [handleFetchAsteroid]. *)
Definition fetch_catch (st : AppState) : AppState * Outcome unit :=
  let st :=
    setError
      (Some "Failed to fetch asteroid data. Check API Key or try 'Apophis'.")
      st in
  if includes (toLowerCase (asteroidQuery st)) "apophis" then
    let st := setAsteroidData (Some MOCK_ASTEROID) st in
    match analyzeAsteroidResources MOCK_ASTEROID, assessThreat MOCK_ASTEROID with
    | Returned mining, Returned threat =>
        let st := setMiningData (Some mining) st in
        let st := setThreatData (Some threat) st in
        let st := setError None st in
        (st, Returned tt)
    | Thrown m, _ => (st, Thrown m)
    | _, Thrown m => (st, Thrown m)
    end
  else (st, Returned tt).

(** [handleFetchAsteroid]: [try], [catch], and [finally]. *)
Definition handleFetchAsteroid (st : AppState) : AppState * Outcome unit :=
  let st := setLoading true st in
  let st := setError None st in
  let (st, r) :=
    match fetch_try st with
    | (st, Returned tt) => (st, Returned tt)
    | (st, Thrown _) => fetch_catch st
    end in
  (setLoading false st, r).

End Service.

End Gemini.

(** ** [components/OrbitViz3D.tsx]: what is drawn from the path

    A [THREE.Vector3] built from a point is represented by the point
    itself; the conversion to 32-bit floats of the position buffer is not
    modelled. *)

Module OrbitViz.

(** [earthOrbit] *)
Definition earthOrbit : list Point3D := Orbit.calculateOrbitPath earth 100.

(** [targetOrbit]: [null] without orbital data. *)
Definition targetOrbit (orbitalData : option OrbitalElements)
  : option (list Point3D) :=
  match orbitalData with
  | None => None
  | Some d => Some (Orbit.calculateOrbitPath d 150)
  end.

(** [targetVectorPoints] *)
Definition targetVectorPoints (orbitalData : option OrbitalElements)
  : list Point3D :=
  match targetOrbit orbitalData with
  | Some path => map (fun p => p) path
  | None => []
  end.

(** [points.flatMap(v => [v.x, v.y, v.z])], the array of the position
    attribute. *)
Definition position_array (points : list Point3D) : list R :=
  flat_map (fun v : Point3D => let '(x, y, z) := v in [x; y; z]) points.

(** Whether the line of the target orbit is drawn:
    [targetCurve && targetVectorPoints.length > 0]. *)
Definition target_line_drawn (orbitalData : option OrbitalElements) : bool :=
  match targetVectorPoints orbitalData with
  | [] => false
  | _ :: _ => true
  end.

(** The position of the target marker: [targetOrbit[0]] when
    [targetOrbit && targetOrbit.length > 0], no marker otherwise. *)
Definition target_marker (orbitalData : option OrbitalElements)
  : option Point3D :=
  match targetOrbit orbitalData with
  | Some (p :: _) => Some p
  | _ => None
  end.

End OrbitViz.

(** ** Comparing points as the program would

    Two points compare equal in JavaScript when their coordinates are equal
    numbers; a point with a [NaN] coordinate, which the checked evaluation
    answers by [None], is equal to nothing, not even to itself. *)

Definition numerically_equal (p q : option Point3D) : Prop :=
  match p, q with
  | Some x, Some y => x = y
  | _, _ => False
  end.

(** An orbit whose eccentricity is beyond the parabola. *)
Definition hyperbolic : OrbitalElements :=
  mkOrbitalElements None 1.5 1 0 0 0 0 None None.

(** * Properties of [calculateOrbitPath] *)

Section OrbitLoop.
Import Orbit.
Variable elements : OrbitalElements.
Variable points : nat.

Lemma orbit_loop_unfold (fuel j : nat) (path : list Point3D) :
  orbit_loop elements points fuel j path =
  path ++ map (orbit_point elements points) (seq j fuel).
Proof.
  revert j path.
  induction fuel as [|fuel IH]; intros j path; simpl.
  - now rewrite app_nil_r.
  - rewrite IH, <- app_assoc. reflexivity.
Qed.

Lemma calculateOrbitPath_map :
  calculateOrbitPath elements points =
  map (orbit_point elements points) (seq 0 (S points)).
Proof.
  unfold calculateOrbitPath. now rewrite orbit_loop_unfold.
Qed.

Lemma calculateOrbitPath_nth (j : nat) (d : Point3D) :
  (j <= points)%nat ->
  nth j (calculateOrbitPath elements points) d =
  orbit_point elements points j.
Proof.
  intros Hj. rewrite calculateOrbitPath_map.
  rewrite nth_indep with (d' := orbit_point elements points 0%nat)
    by (rewrite length_map, length_seq; lia).
  rewrite map_nth, seq_nth by lia. reflexivity.
Qed.
End OrbitLoop.

(** C2: for every orbital-element record and every [points >= 1], the path
    returned by [calculateOrbitPath] has exactly [points + 1] points. *)
Theorem calculateOrbitPath_length (elements : OrbitalElements) (points : nat) :
  (1 <= points)%nat ->
  length (Orbit.calculateOrbitPath elements points) = (points + 1)%nat.
Proof.
  intros _. rewrite calculateOrbitPath_map, length_map, length_seq. lia.
Qed.

Lemma calculateOrbitPath_length_witness :
  (1 <= 4)%nat /\ length (Orbit.calculateOrbitPath unit_circle 4) = (4 + 1)%nat.
Proof.
  split; [lia | apply (calculateOrbitPath_length unit_circle 4); lia].
Defined.

(** ** The rotation formulas against the Euler composition *)

Section Rotation.
Import Orbit Euler313.
Variables wRad iRad omRad P Q : R.

Lemma helio_rotate_perifocal :
  (helio_x wRad iRad omRad P Q,
   helio_y wRad iRad omRad P Q,
   helio_z wRad iRad omRad P Q) =
  rotate_perifocal wRad iRad omRad P Q.
Proof.
  unfold rotate_perifocal, helio_x, helio_y, helio_z, mat_vec, rot3, rot1, dot.
  f_equal; [f_equal|]; ring.
Qed.

Lemma mat_mul_vec (m1 m2 : Mat3) (v : Vec3) :
  mat_vec (mat_mul m1 m2) v = mat_vec m1 (mat_vec m2 v).
Proof.
  destruct m1 as [[[[a11 a12] a13] [[a21 a22] a23]] [[a31 a32] a33]].
  destruct m2 as [[[[b11 b12] b13] [[b21 b22] b23]] [[b31 b32] b33]].
  destruct v as [[v1 v2] v3].
  unfold mat_vec, mat_mul, col, dot.
  f_equal; [f_equal|]; ring.
Qed.

Lemma rot3_norm_sq (t : R) (v : Vec3) :
  norm_sq (mat_vec (rot3 t) v) = norm_sq v.
Proof.
  destruct v as [[v1 v2] v3]. unfold norm_sq, mat_vec, rot3, dot.
  pose proof (sin2_cos2 t) as H. unfold Rsqr in H.
  replace (v1 * v1 + v2 * v2 + v3 * v3)
    with ((sin t * sin t + cos t * cos t) * (v1 * v1 + v2 * v2) + v3 * v3)
    by (rewrite H; ring).
  ring.
Qed.

Lemma rot1_norm_sq (t : R) (v : Vec3) :
  norm_sq (mat_vec (rot1 t) v) = norm_sq v.
Proof.
  destruct v as [[v1 v2] v3]. unfold norm_sq, mat_vec, rot1, dot.
  pose proof (sin2_cos2 t) as H. unfold Rsqr in H.
  replace (v1 * v1 + v2 * v2 + v3 * v3)
    with (v1 * v1 + (sin t * sin t + cos t * cos t) * (v2 * v2 + v3 * v3))
    by (rewrite H; ring).
  ring.
Qed.

Lemma helio_norm_sq :
  helio_x wRad iRad omRad P Q * helio_x wRad iRad omRad P Q +
  helio_y wRad iRad omRad P Q * helio_y wRad iRad omRad P Q +
  helio_z wRad iRad omRad P Q * helio_z wRad iRad omRad P Q =
  P * P + Q * Q.
Proof.
  change (norm_sq (helio_x wRad iRad omRad P Q,
                   helio_y wRad iRad omRad P Q,
                   helio_z wRad iRad omRad P Q) = P * P + Q * Q).
  rewrite helio_rotate_perifocal. unfold rotate_perifocal.
  rewrite rot3_norm_sq, rot1_norm_sq, rot3_norm_sq.
  unfold norm_sq, dot. ring.
Qed.
End Rotation.

(** C3: for every angle triple [(w, i, om)] in radians and every perifocal
    pair [(P, Q)], the hand-expanded [x], [y], [z] of the loop body are the
    3-1-3 Euler composition (by [w] about the third axis, then by [i] about
    the first axis, then by [om] about the third axis) applied to
    [(P, Q, 0)], both as three rotations in sequence and as the product of
    the three elementary rotation matrices. *)
Theorem helio_is_euler313 (wRad iRad omRad P Q : R) :
  (Orbit.helio_x wRad iRad omRad P Q,
   Orbit.helio_y wRad iRad omRad P Q,
   Orbit.helio_z wRad iRad omRad P Q) =
  Euler313.mat_vec (Euler313.rot3 omRad)
    (Euler313.mat_vec (Euler313.rot1 iRad)
       (Euler313.mat_vec (Euler313.rot3 wRad) (P, Q, 0)))
  /\
  (Orbit.helio_x wRad iRad omRad P Q,
   Orbit.helio_y wRad iRad omRad P Q,
   Orbit.helio_z wRad iRad omRad P Q) =
  Euler313.mat_vec (Euler313.euler313 wRad iRad omRad) (P, Q, 0).
Proof.
  split.
  - apply helio_rotate_perifocal.
  - unfold Euler313.euler313. rewrite !mat_mul_vec.
    apply helio_rotate_perifocal.
Qed.

(** ** The closed curve *)

Lemma INR_div_self (points : nat) :
  (1 <= points)%nat -> INR points / INR points = 1.
Proof.
  intros Hp. apply Rdiv_diag. apply not_0_INR. lia.
Qed.

Lemma orbit_point_first (elements : OrbitalElements) (points : nat) :
  Orbit.orbit_point elements points 0 =
  Orbit.orbit_point elements points points \/ points = 0%nat.
Proof.
  destruct points as [|p]; [now right | left].
  unfold Orbit.orbit_point.
  rewrite INR_div_self by lia.
  replace (INR 0 / INR (S p) * 2 * PI) with 0
    by (simpl (INR 0); unfold Rdiv; ring).
  replace (1 * 2 * PI) with (2 * PI) by ring.
  now rewrite cos_0, sin_0, cos_2PI, sin_2PI.
Qed.

Lemma calculateOrbitPath_last (elements : OrbitalElements) (points : nat)
    (d : Point3D) :
  last (Orbit.calculateOrbitPath elements points) d =
  Orbit.orbit_point elements points points.
Proof.
  rewrite calculateOrbitPath_map, seq_S, map_app. simpl.
  apply last_last.
Qed.

Lemma calculateOrbitPath_hd (elements : OrbitalElements) (points : nat)
    (d : Point3D) :
  hd d (Orbit.calculateOrbitPath elements points) =
  Orbit.orbit_point elements points 0.
Proof.
  rewrite calculateOrbitPath_map. reflexivity.
Qed.

(** ** The scenario of the specification

    [elements = {a:1, e:0, i:0, om:0, w:0}], [points = 4]: the point at step
    [0] is [(10, 0, 0)] and the point at step [2] (angle [PI]) is
    [(-10, 0, 0)]. *)

Lemma unit_circle_point (j : nat) :
  Orbit.orbit_point unit_circle 4 j =
  (cos (INR j / 4 * 2 * PI) * 10, 0, - sin (INR j / 4 * 2 * PI) * 10).
Proof.
  unfold Orbit.orbit_point, Orbit.helio_x, Orbit.helio_y, Orbit.helio_z,
    Orbit.scale, unit_circle.
  cbn [a e i om w].
  replace (INR 4) with 4 by (rewrite INR_IZR_INZ; reflexivity).
  rewrite Rmult_0_l, cos_0, sin_0.
  replace (1 - 0 * 0) with 1 by ring. rewrite sqrt_1.
  f_equal; [f_equal|]; ring.
Qed.

Example unit_circle_step_0 :
  nth 0 (Orbit.calculateOrbitPath unit_circle 4) origin = (10, 0, 0).
Proof.
  rewrite calculateOrbitPath_nth, unit_circle_point by lia.
  replace (INR 0 / 4 * 2 * PI) with 0 by (simpl (INR 0); lra).
  rewrite cos_0, sin_0. f_equal; [f_equal|]; ring.
Qed.

Example unit_circle_step_2 :
  nth 2 (Orbit.calculateOrbitPath unit_circle 4) origin = (-10, 0, 0).
Proof.
  rewrite calculateOrbitPath_nth, unit_circle_point by lia.
  replace (INR 2 / 4 * 2 * PI) with PI
    by (rewrite INR_IZR_INZ; simpl (Z.of_nat 2); lra).
  rewrite cos_PI, sin_PI. f_equal; [f_equal|]; ring.
Qed.

(** ** The circular orbit *)

Lemma orbit_point_norm_circular (elements : OrbitalElements) (points j : nat) :
  e elements = 0 -> 0 < a elements ->
  Orbit.norm3 (Orbit.orbit_point elements points j) = a elements * 10.
Proof.
  intros He Ha. unfold Orbit.orbit_point, Orbit.norm3, Orbit.scale.
  rewrite He.
  replace (1 - 0 * 0) with 1 by ring. rewrite sqrt_1.
  set (E := INR j / INR points * 2 * PI).
  set (P := a elements * (cos E - 0)).
  set (Q := a elements * 1 * sin E).
  set (wr := w elements * Orbit.d2r).
  set (ir := i elements * Orbit.d2r).
  set (omr := om elements * Orbit.d2r).
  pose proof (helio_norm_sq wr ir omr P Q) as Hn.
  pose proof (sin2_cos2 E) as Hsc. unfold Rsqr in Hsc.
  match goal with
  | |- sqrt ?t = _ =>
      replace t with ((a elements * 10) * (a elements * 10))
  end.
  - apply sqrt_square. lra.
  - transitivity (100 * (P * P + Q * Q)).
    + unfold P, Q.
      replace (a elements * (cos E - 0) * (a elements * (cos E - 0)) +
               a elements * 1 * sin E * (a elements * 1 * sin E))
        with (a elements * a elements * (sin E * sin E + cos E * cos E))
        by ring.
      rewrite Hsc. ring.
    + rewrite <- Hn. ring.
Qed.

(** C5: for [e = 0], any [a > 0], any angles and any [points >= 1], every
    point of the path lies at Euclidean distance [a * 10] from the origin. *)
Theorem calculateOrbitPath_circular (elements : OrbitalElements)
    (points : nat) (p : Point3D) :
  e elements = 0 -> 0 < a elements -> (1 <= points)%nat ->
  In p (Orbit.calculateOrbitPath elements points) ->
  Orbit.norm3 p = a elements * 10.
Proof.
  intros He Ha _ Hin.
  rewrite calculateOrbitPath_map in Hin.
  apply in_map_iff in Hin. destruct Hin as [j [<- _]].
  now apply orbit_point_norm_circular.
Qed.

Lemma calculateOrbitPath_circular_witness :
  e unit_circle = 0 /\ 0 < a unit_circle /\ (1 <= 4)%nat /\
  In (Orbit.orbit_point unit_circle 4 2) (Orbit.calculateOrbitPath unit_circle 4) /\
  Orbit.norm3 (Orbit.orbit_point unit_circle 4 2) = a unit_circle * 10.
Proof.
  assert (Hin : In (Orbit.orbit_point unit_circle 4 2)
                   (Orbit.calculateOrbitPath unit_circle 4))
    by (simpl; auto).
  split; [reflexivity|]. split; [simpl; lra|]. split; [lia|].
  split; [exact Hin|].
  apply (calculateOrbitPath_circular unit_circle 4); simpl; try lra; try lia.
  exact Hin.
Defined.

(** ** Definedness of the arithmetic *)

Section CheckedOrbit.
Variable elements : OrbitalElements.
Variable points : nat.

Lemma checked_div_defined (x y : R) :
  y <> 0 -> Checked.div x y = Some (x / y).
Proof.
  intros Hy. unfold Checked.div.
  destruct (Req_dec_T y 0) as [H0|_]; [contradiction | reflexivity].
Qed.

Lemma checked_div_by_zero (x : R) : Checked.div x 0 = None.
Proof.
  unfold Checked.div.
  destruct (Req_dec_T 0 0) as [_|H0]; [reflexivity | now elim H0].
Qed.

Lemma checked_sqrt_defined (x : R) :
  0 <= x -> Checked.sqrt x = Some (sqrt x).
Proof.
  intros Hx. unfold Checked.sqrt.
  destruct (Rlt_dec x 0) as [Hneg|_]; [lra | reflexivity].
Qed.

Lemma eccentricity_radicand :
  0 <= e elements < 1 -> 0 < 1 - e elements * e elements.
Proof. intros [H0 H1]. nra. Qed.

Hypothesis points_pos : (1 <= points)%nat.
Hypothesis e_range : 0 <= e elements < 1.

Lemma checked_orbit_point (j : nat) :
  Checked.orbit_point_checked elements points j =
  Some (Orbit.orbit_point elements points j).
Proof.
  unfold Checked.orbit_point_checked, Orbit.orbit_point.
  rewrite checked_div_defined by lra. simpl Checked.bind.
  rewrite checked_div_defined by (apply not_0_INR; lia). simpl Checked.bind.
  rewrite checked_sqrt_defined
    by (pose proof (eccentricity_radicand e_range); lra).
  reflexivity.
Qed.

Lemma checked_orbit_loop (fuel j : nat) (path : list Point3D) :
  Checked.orbit_loop_checked elements points fuel j path =
  Some (Orbit.orbit_loop elements points fuel j path).
Proof.
  revert j path. induction fuel as [|fuel IH]; intros j path; simpl.
  - reflexivity.
  - rewrite checked_orbit_point. simpl. apply IH.
Qed.
End CheckedOrbit.

(** C9: with [points >= 1] and [0 <= e < 1] every arithmetic operation of
    [calculateOrbitPath] is defined: the divisor [points] is not zero, the
    argument [1 - e * e] of the square root is not negative, and the checked
    evaluation returns the very path of the real-valued one.  The
    precondition on [points] is necessary: with [points = 0] the first
    iteration divides [0] by [0] and the checked evaluation fails. *)
Theorem calculateOrbitPath_well_defined (elements : OrbitalElements)
    (points : nat) :
  ((1 <= points)%nat -> 0 <= e elements < 1 ->
   INR points <> 0 /\
   0 <= 1 - e elements * e elements /\
   Checked.calculateOrbitPath_checked elements points =
   Some (Orbit.calculateOrbitPath elements points))
  /\
  (points = 0%nat ->
   Checked.div (INR 0) (INR points) = None /\
   Checked.calculateOrbitPath_checked elements points = None).
Proof.
  split.
  - intros Hp He. split; [apply not_0_INR; lia|].
    split; [pose proof (eccentricity_radicand elements He); lra|].
    now apply checked_orbit_loop.
  - intros ->. simpl (INR 0). split; [apply checked_div_by_zero|].
    unfold Checked.calculateOrbitPath_checked. simpl.
    unfold Checked.orbit_point_checked.
    rewrite checked_div_defined by lra. simpl (INR 0). simpl Checked.bind.
    now rewrite checked_div_by_zero.
Qed.

Lemma calculateOrbitPath_well_defined_witness :
  ((1 <= 100)%nat /\ 0 <= e earth < 1) /\
  Checked.calculateOrbitPath_checked earth 100 =
  Some (Orbit.calculateOrbitPath earth 100) /\
  Checked.calculateOrbitPath_checked earth 0 = None.
Proof.
  split; [split; [lia | simpl; lra]|].
  split.
  - apply (proj1 (calculateOrbitPath_well_defined earth 100));
      [lia | simpl; lra].
  - apply (proj2 (calculateOrbitPath_well_defined earth 0)). reflexivity.
Defined.

(** * Properties of [simulateLightCurve] *)

Section LightCurveLoop.
Import LightCurve.
Variables period depth durationHours : R.

Lemma lc_body_eq (k : nat) (g : RandomSource) :
  lc_body period depth durationHours k g =
  (mkSample (sample_time period k)
            (transit_flux period depth durationHours k
             + jitter (draws g (cursor g))),
   advance 1 g).
Proof.
  unfold lc_body, Math_random, advance. do 2 f_equal. lia.
Qed.

Lemma lc_loop_unfold (fuel k : nat) (g : RandomSource) (data : list Sample) :
  lc_loop period depth durationHours fuel k g data =
  (data ++ map (fun j =>
                  mkSample (sample_time period (k + j))
                    (transit_flux period depth durationHours (k + j)
                     + jitter (draws g (cursor g + j))))
             (seq 0 fuel),
   advance fuel g).
Proof.
  revert k g data.
  induction fuel as [|fuel IH]; intros k g data.
  - simpl. rewrite app_nil_r. unfold advance.
    destruct g as [ds c]. simpl. now rewrite Nat.add_0_r.
  - cbn [lc_loop]. rewrite lc_body_eq, IH.
    rewrite <- app_assoc. cbn [seq map app].
    rewrite <- seq_shift, map_map, !Nat.add_0_r.
    f_equal.
    + do 2 f_equal. apply map_ext. intros j. simpl.
      replace (cursor g + 1 + j)%nat with (cursor g + S j)%nat by lia.
      now rewrite <- !Nat.add_succ_r.
    + unfold advance. simpl. f_equal. lia.
Qed.

Lemma simulateLightCurve_map (g : RandomSource) :
  simulateLightCurve period depth durationHours g =
  (map (sample_at period depth durationHours g) (seq 0 totalPoints),
   advance totalPoints g).
Proof.
  unfold simulateLightCurve. rewrite lc_loop_unfold. reflexivity.
Qed.

Lemma simulateLightCurve_length (g : RandomSource) :
  length (fst (simulateLightCurve period depth durationHours g)) = 200%nat.
Proof.
  rewrite simulateLightCurve_map. cbn [fst].
  now rewrite length_map, length_seq.
Qed.

Lemma simulateLightCurve_nth (g : RandomSource) (k : nat) (d : Sample) :
  (k < 200)%nat ->
  nth k (fst (simulateLightCurve period depth durationHours g)) d =
  sample_at period depth durationHours g k.
Proof.
  intros Hk. rewrite simulateLightCurve_map. cbn [fst].
  rewrite nth_indep with (d' := sample_at period depth durationHours g 0)
    by (rewrite length_map, length_seq; exact Hk).
  rewrite map_nth, seq_nth by exact Hk. reflexivity.
Qed.
End LightCurveLoop.

Lemma INR_totalPoints : INR LightCurve.totalPoints = 200.
Proof.
  unfold LightCurve.totalPoints. rewrite INR_IZR_INZ. reflexivity.
Qed.

Lemma sample_time_eq (period : R) (k : nat) :
  LightCurve.sample_time period k = INR k / 200 * (2 * period).
Proof.
  unfold LightCurve.sample_time, LightCurve.totalTime.
  rewrite INR_totalPoints. ring.
Qed.

Lemma sample_time_lt (period : R) (j k : nat) :
  0 < period -> (j < k)%nat ->
  LightCurve.sample_time period j < LightCurve.sample_time period k.
Proof.
  intros Hp Hjk. rewrite !sample_time_eq.
  apply lt_INR in Hjk. nra.
Qed.

(** C1: for every [period > 0], [depth] and [durationHours], and whatever
    the state of the generator, [simulateLightCurve] returns exactly 200
    samples; the time of the sample at index [k] is [(k / 200) * 2 * period];
    the first time is [0]; every time is strictly below [2 * period]; and
    the times are strictly increasing. *)
Theorem simulateLightCurve_times (period depth durationHours : R)
    (g : RandomSource) (d : Sample) :
  0 < period ->
  let data := fst (LightCurve.simulateLightCurve period depth durationHours g) in
  length data = 200%nat
  /\ (forall k : nat, (k < 200)%nat ->
        time (nth k data d) = INR k / 200 * (2 * period))
  /\ time (nth 0 data d) = 0
  /\ (forall k : nat, (k < 200)%nat -> time (nth k data d) < 2 * period)
  /\ (forall j k : nat, (j < k < 200)%nat ->
        time (nth j data d) < time (nth k data d)).
Proof.
  intros Hp data. unfold data.
  split; [apply simulateLightCurve_length|].
  split; [|split; [|split]].
  - intros k Hk. rewrite simulateLightCurve_nth by exact Hk.
    apply sample_time_eq.
  - rewrite simulateLightCurve_nth by lia. cbn [LightCurve.sample_at time].
    rewrite sample_time_eq. simpl (INR 0). lra.
  - intros k Hk. rewrite simulateLightCurve_nth by exact Hk.
    cbn [LightCurve.sample_at time]. rewrite sample_time_eq.
    assert (Hlt : INR k < 200).
    { rewrite <- INR_totalPoints. now apply lt_INR. }
    nra.
  - intros j k [Hjk Hk]. rewrite !simulateLightCurve_nth by lia.
    cbn [LightCurve.sample_at time]. now apply sample_time_lt.
Qed.

Lemma simulateLightCurve_times_witness :
  0 < 3.5 /\
  length (fst (LightCurve.simulateLightCurve 3.5 0.012 2.5 constant_source))
  = 200%nat.
Proof.
  split; [lra|].
  apply (simulateLightCurve_times 3.5 0.012 2.5 constant_source no_sample).
  lra.
Defined.

(** ** The remainder on the first period *)

Lemma js_rem_small (x y : R) : 0 <= x < y -> js_rem x y = x.
Proof.
  intros [Hx Hxy]. unfold js_rem, js_trunc.
  assert (Hy : 0 < y) by lra.
  assert (Hinv : 0 < / y) by (apply Rinv_0_lt_compat; exact Hy).
  assert (Hone : y * / y = 1) by (apply Rinv_r; lra).
  assert (Hq : 0 <= x / y < 1) by (unfold Rdiv; split; nra).
  destruct (Rle_dec 0 (x / y)) as [_|Hneg]; [|lra].
  rewrite <- (Int_part_spec (x / y) 0) by (simpl; lra).
  simpl. ring.
Qed.

Lemma sample_time_index (period : R) (k : nat) (z : Z) :
  Z.of_nat k = z ->
  LightCurve.sample_time period k = IZR z / 200 * (2 * period).
Proof.
  intros <-. rewrite sample_time_eq, INR_IZR_INZ. reflexivity.
Qed.

(** ** The jitter *)

Lemma jitter_bounds (u : R) :
  0 <= u < 1 -> - 0.00025 <= LightCurve.jitter u < 0.00025.
Proof. unfold LightCurve.jitter. intros [H0 H1]. lra. Qed.

Lemma jitter_onto (t : R) :
  - 0.00025 <= t < 0.00025 ->
  exists u : R, 0 <= u < 1 /\ LightCurve.jitter u = t.
Proof.
  intros [Hl Hu]. exists (t * 2000 + 0.5). unfold LightCurve.jitter.
  split; lra.
Qed.

Lemma jitter_affine (u v : R) :
  LightCurve.jitter u - LightCurve.jitter v = 0.0005 * (u - v).
Proof. unfold LightCurve.jitter. ring. Qed.

Lemma jitter_abs (g : RandomSource) (k : nat) :
  valid_source g -> Rabs (LightCurve.jitter (draws g k)) <= 0.00025.
Proof.
  intros Hg. apply Rabs_le.
  pose proof (jitter_bounds (draws g k) (Hg k)). lra.
Qed.

(** ** The transit window *)

Section TransitWindow.
Import LightCurve.
Variables period depth durationHours : R.
Variable k : nat.

Lemma transit_flux_inside :
  Rabs (timeInPeriod period k - transitCenter period)
    < durationDays durationHours / 2 ->
  transit_flux period depth durationHours k =
  1.0 - depth +
  Rabs (timeInPeriod period k - transitCenter period)
    / (durationDays durationHours / 2) * (depth * 0.1).
Proof.
  intros Hin. unfold transit_flux.
  destruct (Rlt_dec _ _) as [_|Hout]; [reflexivity | contradiction].
Qed.

Lemma transit_flux_outside :
  ~ Rabs (timeInPeriod period k - transitCenter period)
      < durationDays durationHours / 2 ->
  transit_flux period depth durationHours k = 1.0.
Proof.
  intros Hout. unfold transit_flux.
  destruct (Rlt_dec _ _) as [Hin|_]; [contradiction | reflexivity].
Qed.

Lemma transit_flux_center :
  0 < durationHours ->
  timeInPeriod period k = period / 2 ->
  transit_flux period depth durationHours k = 1 - depth.
Proof.
  intros Hh Hc.
  assert (H0 : timeInPeriod period k - transitCenter period = 0)
    by (unfold transitCenter; lra).
  rewrite transit_flux_inside; rewrite H0, Rabs_R0.
  - unfold Rdiv. rewrite !Rmult_0_l. lra.
  - unfold durationDays. lra.
Qed.
End TransitWindow.

(** C6: for every [period > 0], [depth] and [durationHours > 0], a sample
    whose [timeInPeriod] equals [period / 2] has the limb-darkening
    correction term equal to [0], so its flux is [1 - depth] plus the jitter
    of its draw, hence within [0.00025] of [1 - depth]. *)
Theorem transit_center_flux (period depth durationHours : R)
    (g : RandomSource) (d : Sample) (k : nat) :
  0 < period -> 0 < durationHours -> valid_source g -> (k < 200)%nat ->
  LightCurve.timeInPeriod period k = period / 2 ->
  let s := nth k (fst (LightCurve.simulateLightCurve period depth durationHours g)) d in
  Rabs (LightCurve.timeInPeriod period k - LightCurve.transitCenter period)
    / (LightCurve.durationDays durationHours / 2) * (depth * 0.1) = 0
  /\ flux s = 1 - depth + LightCurve.jitter (draws g (cursor g + k))
  /\ Rabs (flux s - (1 - depth)) <= 0.00025.
Proof.
  intros _ Hh Hg Hk Hc s. unfold s.
  rewrite simulateLightCurve_nth by exact Hk.
  cbn [LightCurve.sample_at flux].
  rewrite transit_flux_center by assumption.
  split; [|split].
  - replace (LightCurve.timeInPeriod period k - LightCurve.transitCenter period)
      with 0 by (unfold LightCurve.transitCenter; lra).
    rewrite Rabs_R0. unfold Rdiv. ring.
  - reflexivity.
  - replace (1 - depth + LightCurve.jitter (draws g (cursor g + k)) - (1 - depth))
      with (LightCurve.jitter (draws g (cursor g + k))) by ring.
    now apply jitter_abs.
Qed.

Lemma constant_source_valid : valid_source constant_source.
Proof. intros k. simpl. lra. Qed.

Lemma transit_center_flux_witness :
  LightCurve.timeInPeriod 3.5 50 = 3.5 / 2 /\
  Rabs (flux (nth 50 (fst (LightCurve.simulateLightCurve 3.5 0.012 2.5
                             constant_source)) no_sample)
        - (1 - 0.012)) <= 0.00025.
Proof.
  assert (Hc : LightCurve.timeInPeriod 3.5 50 = 3.5 / 2).
  { unfold LightCurve.timeInPeriod.
    rewrite (sample_time_index 3.5 50 50) by reflexivity.
    rewrite js_rem_small; lra. }
  split; [exact Hc|].
  apply (transit_center_flux 3.5 0.012 2.5 constant_source no_sample 50);
    [lra | lra | exact constant_source_valid | lia | exact Hc].
Defined.

(** C7: for every [period > 0], [depth] and [durationHours > 0], a sample
    whose [timeInPeriod] lies outside the transit window (at distance at
    least [durationDays / 2] from [period / 2]) has flux [1.0] plus the
    jitter of its draw, hence within [0.00025] of [1.0].  The jitter is the
    draw [u] of [Math.random], taken in [0, 1), rescaled by the affine map
    [(u - 0.5) * 0.0005]: it covers the interval from [-0.00025] to
    [0.00025] and stretches every sub-interval of draws by the same factor,
    so it is spread over its range as evenly as the draws over theirs. *)
Theorem out_of_transit_flux (period depth durationHours : R)
    (g : RandomSource) (d : Sample) (k : nat) :
  0 < period -> 0 < durationHours -> valid_source g -> (k < 200)%nat ->
  Rabs (LightCurve.timeInPeriod period k - LightCurve.transitCenter period)
    >= LightCurve.durationDays durationHours / 2 ->
  let s := nth k (fst (LightCurve.simulateLightCurve period depth durationHours g)) d in
  flux s = 1.0 + LightCurve.jitter (draws g (cursor g + k))
  /\ Rabs (flux s - 1.0) <= 0.00025
  /\ (forall u : R, 0 <= u < 1 -> - 0.00025 <= LightCurve.jitter u < 0.00025)
  /\ (forall t : R, - 0.00025 <= t < 0.00025 ->
        exists u : R, 0 <= u < 1 /\ LightCurve.jitter u = t)
  /\ (forall u v : R,
        LightCurve.jitter u - LightCurve.jitter v = 0.0005 * (u - v)).
Proof.
  intros _ _ Hg Hk Hout s. unfold s.
  rewrite simulateLightCurve_nth by exact Hk.
  cbn [LightCurve.sample_at flux].
  rewrite transit_flux_outside by lra.
  split; [reflexivity|]. split.
  - replace (1.0 + LightCurve.jitter (draws g (cursor g + k)) - 1.0)
      with (LightCurve.jitter (draws g (cursor g + k))) by ring.
    now apply jitter_abs.
  - split; [exact jitter_bounds|]. split; [exact jitter_onto|].
    exact jitter_affine.
Qed.

Lemma out_of_transit_flux_witness :
  Rabs (LightCurve.timeInPeriod 3.5 0 - LightCurve.transitCenter 3.5)
    >= LightCurve.durationDays 2.5 / 2 /\
  Rabs (flux (nth 0 (fst (LightCurve.simulateLightCurve 3.5 0.012 2.5
                            constant_source)) no_sample)
        - 1.0) <= 0.00025.
Proof.
  assert (Hout : Rabs (LightCurve.timeInPeriod 3.5 0 - LightCurve.transitCenter 3.5)
                 >= LightCurve.durationDays 2.5 / 2).
  { unfold LightCurve.timeInPeriod, LightCurve.transitCenter,
      LightCurve.durationDays.
    rewrite (sample_time_index 3.5 0 0) by reflexivity.
    rewrite js_rem_small by lra.
    unfold Rabs. destruct (Rcase_abs _); lra. }
  split; [exact Hout|].
  apply (out_of_transit_flux 3.5 0.012 2.5 constant_source no_sample 0);
    [lra | lra | exact constant_source_valid | lia | exact Hout].
Defined.

(** C10: the window test is strict.  A sample whose distance from the
    transit center is exactly [durationDays / 2] takes the [else] path: its
    flux is [1.0] plus jitter, and (for a nonzero depth and a positive
    duration) that is not the value the in-transit formula would give. *)
Theorem window_boundary_is_out_of_transit (period depth durationHours : R)
    (g : RandomSource) (d : Sample) (k : nat) :
  (k < 200)%nat ->
  Rabs (LightCurve.timeInPeriod period k - LightCurve.transitCenter period)
    = LightCurve.durationDays durationHours / 2 ->
  let s := nth k (fst (LightCurve.simulateLightCurve period depth durationHours g)) d in
  LightCurve.transit_flux period depth durationHours k = 1.0
  /\ flux s = 1.0 + LightCurve.jitter (draws g (cursor g + k))
  /\ (depth <> 0 -> 0 < durationHours ->
      flux s <>
      1.0 - depth +
      Rabs (LightCurve.timeInPeriod period k - LightCurve.transitCenter period)
        / (LightCurve.durationDays durationHours / 2) * (depth * 0.1)
      + LightCurve.jitter (draws g (cursor g + k))).
Proof.
  intros Hk Hb s. unfold s.
  rewrite simulateLightCurve_nth by exact Hk.
  cbn [LightCurve.sample_at flux].
  rewrite transit_flux_outside by lra.
  split; [reflexivity|]. split; [reflexivity|].
  intros Hd Hh. rewrite Hb.
  assert (Hhalf : LightCurve.durationDays durationHours / 2 <> 0)
    by (unfold LightCurve.durationDays; lra).
  unfold Rdiv at 1. rewrite Rinv_r by exact Hhalf.
  intros Heq. apply Hd. lra.
Qed.

Lemma window_boundary_is_out_of_transit_witness :
  Rabs (LightCurve.timeInPeriod 2 0 - LightCurve.transitCenter 2)
    = LightCurve.durationDays 48 / 2 /\
  flux (nth 0 (fst (LightCurve.simulateLightCurve 2 0.01 48 constant_source))
          no_sample)
  = 1.0 + LightCurve.jitter 0.5.
Proof.
  assert (Hb : Rabs (LightCurve.timeInPeriod 2 0 - LightCurve.transitCenter 2)
               = LightCurve.durationDays 48 / 2).
  { unfold LightCurve.timeInPeriod, LightCurve.transitCenter,
      LightCurve.durationDays.
    rewrite (sample_time_index 2 0 0) by reflexivity.
    rewrite js_rem_small by lra.
    unfold Rabs. destruct (Rcase_abs _); lra. }
  split; [exact Hb|].
  apply (window_boundary_is_out_of_transit 2 0.01 48 constant_source no_sample 0);
    [lia | exact Hb].
Defined.

(** ** Reproducibility *)

Lemma two_phase_source_valid : valid_source two_phase_source.
Proof.
  intros k. simpl. destruct (k <? 200)%nat; lra.
Qed.

Lemma two_phase_source_late (k : nat) :
  draws two_phase_source (200 + k) = 0.5.
Proof.
  cbn [draws two_phase_source].
  destruct (Nat.ltb_spec (200 + k) 200) as [Hlt|_]; [lia | reflexivity].
Qed.

Lemma simulateLightCurve_advances (period depth durationHours : R)
    (g : RandomSource) :
  snd (LightCurve.simulateLightCurve period depth durationHours g) =
  advance 200 g.
Proof.
  rewrite simulateLightCurve_map. reflexivity.
Qed.

(** C8, as stated, fails: [simulateLightCurve] takes the three transit
    parameters only and draws from the global generator, so two invocations
    with the same arguments, one after the other, return different
    sequences as soon as the generator yields different numbers. *)
Lemma simulateLightCurve_not_seedable :
  valid_source two_phase_source /\
  let first := LightCurve.simulateLightCurve 3.5 0.012 2.5 two_phase_source in
  let second := LightCurve.simulateLightCurve 3.5 0.012 2.5 (snd first) in
  fst first <> fst second.
Proof.
  split; [exact two_phase_source_valid|].
  intros first second Heq.
  apply (f_equal (fun l => flux (nth 0 l no_sample))) in Heq.
  unfold second, first in Heq.
  rewrite simulateLightCurve_advances in Heq.
  rewrite !simulateLightCurve_nth in Heq by lia.
  cbn [LightCurve.sample_at flux advance cursor draws] in Heq.
  rewrite two_phase_source_late in Heq.
  cbn in Heq. unfold LightCurve.jitter in Heq. lra.
Qed.

(** C8, amended: [simulateLightCurve] is deterministic except for the
    jitter.  The time of every sample, and its flux less the jitter of its
    draw, depend on the three parameters only; a call consumes exactly 200
    draws of the global generator; and two invocations with the same
    parameters which meet the same 200 draws return identical sequences. *)
Theorem simulateLightCurve_determined_by_draws
    (period depth durationHours : R) (g1 g2 : RandomSource) (d : Sample) :
  let out1 := fst (LightCurve.simulateLightCurve period depth durationHours g1) in
  let out2 := fst (LightCurve.simulateLightCurve period depth durationHours g2) in
  (forall k : nat, (k < 200)%nat ->
     time (nth k out1 d) = time (nth k out2 d) /\
     flux (nth k out1 d) - LightCurve.jitter (draws g1 (cursor g1 + k)) =
     flux (nth k out2 d) - LightCurve.jitter (draws g2 (cursor g2 + k)))
  /\ snd (LightCurve.simulateLightCurve period depth durationHours g1)
     = advance 200 g1
  /\ ((forall k : nat, (k < 200)%nat ->
         draws g1 (cursor g1 + k) = draws g2 (cursor g2 + k)) ->
      out1 = out2).
Proof.
  intros out1 out2. unfold out1, out2. split; [|split].
  - intros k Hk. rewrite !simulateLightCurve_nth by exact Hk.
    cbn [LightCurve.sample_at time flux]. split; [reflexivity | ring].
  - apply simulateLightCurve_advances.
  - intros Hdraws. rewrite !simulateLightCurve_map. cbn [fst].
    apply map_ext_in. intros k Hk. apply in_seq in Hk.
    unfold LightCurve.sample_at. rewrite Hdraws; [reflexivity|].
    unfold LightCurve.totalPoints in Hk. lia.
Qed.

Lemma simulateLightCurve_determined_by_draws_witness :
  (forall k : nat, (k < 200)%nat ->
     draws constant_source (cursor constant_source + k) =
     draws (advance 200 two_phase_source)
           (cursor (advance 200 two_phase_source) + k)) /\
  fst (LightCurve.simulateLightCurve 3.5 0.012 2.5 constant_source) =
  fst (LightCurve.simulateLightCurve 3.5 0.012 2.5
         (advance 200 two_phase_source)).
Proof.
  assert (Hdraws : forall k : nat, (k < 200)%nat ->
     draws constant_source (cursor constant_source + k) =
     draws (advance 200 two_phase_source)
           (cursor (advance 200 two_phase_source) + k)).
  { intros k _. change (0.5 = draws two_phase_source (200 + k)).
    now rewrite two_phase_source_late. }
  split; [exact Hdraws|].
  apply (simulateLightCurve_determined_by_draws 3.5 0.012 2.5
           constant_source (advance 200 two_phase_source) no_sample).
  exact Hdraws.
Defined.

(** * Further properties of [calculateOrbitPath] *)

(** ** Distance from the focus *)

Section Ellipse.
Variable elements : OrbitalElements.
Variable points : nat.

Lemma perifocal_norm_sq (E : R) :
  e elements * e elements <= 1 ->
  let P := a elements * (cos E - e elements) in
  let Q := a elements * sqrt (1 - e elements * e elements) * sin E in
  P * P + Q * Q =
  (a elements * (1 - e elements * cos E)) *
  (a elements * (1 - e elements * cos E)).
Proof.
  intros He P Q. unfold P, Q.
  pose proof (sqrt_sqrt (1 - e elements * e elements)) as Hs.
  pose proof (sin2_cos2 E) as Hsc. unfold Rsqr in Hsc.
  set (s := sqrt (1 - e elements * e elements)) in *.
  replace (a elements * s * sin E * (a elements * s * sin E))
    with (a elements * a elements * (s * s) * (sin E * sin E)) by ring.
  rewrite Hs by lra.
  replace (sin E * sin E) with (1 - cos E * cos E) by lra.
  ring.
Qed.

Lemma eccentric_radius_nonneg (E : R) :
  0 <= a elements -> e elements * e elements <= 1 ->
  0 <= a elements * (1 - e elements * cos E).
Proof.
  intros Ha He. pose proof (COS_bound E) as [Hl Hu].
  apply Rmult_le_pos; [exact Ha|]. nra.
Qed.

Lemma orbit_point_norm_ellipse (j : nat) :
  0 <= a elements -> e elements * e elements <= 1 ->
  Orbit.norm3 (Orbit.orbit_point elements points j) =
  10 * (a elements *
        (1 - e elements * cos (INR j / INR points * 2 * PI))).
Proof.
  intros Ha He. unfold Orbit.orbit_point, Orbit.norm3, Orbit.scale.
  set (E := INR j / INR points * 2 * PI).
  set (P := a elements * (cos E - e elements)).
  set (Q := a elements * sqrt (1 - e elements * e elements) * sin E).
  set (wr := w elements * Orbit.d2r).
  set (ir := i elements * Orbit.d2r).
  set (omr := om elements * Orbit.d2r).
  pose proof (helio_norm_sq wr ir omr P Q) as Hn.
  pose proof (perifocal_norm_sq E He) as Hpq. cbv zeta in Hpq. fold P Q in Hpq.
  pose proof (eccentric_radius_nonneg E Ha He) as Hr.
  set (r := a elements * (1 - e elements * cos E)) in *.
  match goal with
  | |- sqrt ?t = _ => replace t with ((10 * r) * (10 * r))
  end.
  - apply sqrt_square. lra.
  - transitivity (100 * (P * P + Q * Q)).
    + rewrite Hpq. ring.
    + rewrite <- Hn. ring.
Qed.
End Ellipse.

(** X1: for a semi-major axis [a >= 0] and an eccentricity with
    [e * e <= 1], the point pushed at counter [j] lies at distance
    [10 * a * (1 - e * cos E)] from the origin, [E] being the angle of that
    step: the origin is a focus of the drawn ellipse. *)
Theorem calculateOrbitPath_radius (elements : OrbitalElements)
    (points j : nat) (d : Point3D) :
  (1 <= points)%nat -> (j <= points)%nat ->
  0 <= a elements -> e elements * e elements <= 1 ->
  Orbit.norm3 (nth j (Orbit.calculateOrbitPath elements points) d) =
  10 * (a elements *
        (1 - e elements * cos (INR j / INR points * 2 * PI))).
Proof.
  intros _ Hj Ha He. rewrite calculateOrbitPath_nth by exact Hj.
  now apply orbit_point_norm_ellipse.
Qed.

Lemma calculateOrbitPath_radius_witness :
  Orbit.norm3 (nth 37 (Orbit.calculateOrbitPath apophis_orbit 150) origin) =
  10 * (a apophis_orbit *
        (1 - e apophis_orbit * cos (INR 37 / INR 150 * 2 * PI))).
Proof.
  apply (calculateOrbitPath_radius apophis_orbit 150 37 origin);
    [lia | lia | simpl; lra | simpl; lra].
Defined.

Lemma INR_half (m : nat) :
  (1 <= m)%nat -> INR m / INR (2 * m) * 2 * PI = PI.
Proof.
  intros Hm. rewrite mult_INR.
  replace (INR 2) with 2 by (simpl; ring).
  assert (INR m <> 0) by (apply not_0_INR; lia).
  field. exact H.
Qed.

(** X2: for [a >= 0], [0 <= e <= 1] and [points >= 1], the first point of
    the path is the periapsis, at distance [10 * a * (1 - e)]; every point
    lies between that distance and [10 * a * (1 + e)]; and when [points] is
    even the middle point is the apoapsis, at distance [10 * a * (1 + e)]. *)
Theorem calculateOrbitPath_apsides (elements : OrbitalElements)
    (points : nat) (d : Point3D) :
  (1 <= points)%nat -> 0 <= a elements -> 0 <= e elements <= 1 ->
  let path := Orbit.calculateOrbitPath elements points in
  Orbit.norm3 (hd d path) = 10 * a elements * (1 - e elements)
  /\ (forall p : Point3D, In p path ->
        10 * a elements * (1 - e elements) <= Orbit.norm3 p
        <= 10 * a elements * (1 + e elements))
  /\ (forall m : nat, points = (2 * m)%nat ->
        Orbit.norm3 (nth m path d) = 10 * a elements * (1 + e elements)).
Proof.
  intros Hp Ha He path. unfold path.
  assert (He2 : e elements * e elements <= 1) by nra.
  split; [|split].
  - rewrite calculateOrbitPath_hd, orbit_point_norm_ellipse by assumption.
    replace (INR 0 / INR points * 2 * PI) with 0
      by (simpl (INR 0); unfold Rdiv; ring).
    rewrite cos_0. ring.
  - intros p Hin. rewrite calculateOrbitPath_map in Hin.
    apply in_map_iff in Hin. destruct Hin as [j [<- _]].
    rewrite orbit_point_norm_ellipse by assumption.
    pose proof (COS_bound (INR j / INR points * 2 * PI)) as [Hl Hu].
    set (c := cos (INR j / INR points * 2 * PI)) in *.
    assert (Hae : 0 <= a elements * e elements)
      by (apply Rmult_le_pos; lra).
    assert (Hlo : 0 <= a elements * e elements * (1 - c))
      by (apply Rmult_le_pos; lra).
    assert (Hhi : 0 <= a elements * e elements * (1 + c))
      by (apply Rmult_le_pos; lra).
    split; nra.
  - intros m ->. rewrite calculateOrbitPath_nth by lia.
    rewrite orbit_point_norm_ellipse by assumption.
    rewrite INR_half by lia. rewrite cos_PI. ring.
Qed.

Lemma calculateOrbitPath_apsides_witness :
  Orbit.norm3 (hd origin (Orbit.calculateOrbitPath apophis_orbit 150)) =
  10 * a apophis_orbit * (1 - e apophis_orbit)
  /\ Orbit.norm3 (nth 75 (Orbit.calculateOrbitPath apophis_orbit 150) origin) =
     10 * a apophis_orbit * (1 + e apophis_orbit).
Proof.
  destruct (calculateOrbitPath_apsides apophis_orbit 150 origin)
    as [Hfirst [_ Hmid]]; [lia | simpl; lra | simpl; lra |].
  split; [exact Hfirst | apply (Hmid 75%nat); reflexivity].
Defined.

(** ** The plane of the orbit *)

Lemma orbit_normal_unit (elements : OrbitalElements) :
  Euler313.norm_sq (orbit_normal elements) = 1.
Proof.
  unfold orbit_normal, Euler313.norm_sq, Euler313.dot.
  set (ir := i elements * Orbit.d2r). set (omr := om elements * Orbit.d2r).
  pose proof (sin2_cos2 ir) as Hi. pose proof (sin2_cos2 omr) as Ho.
  unfold Rsqr in Hi, Ho.
  replace (sin omr * sin ir * (sin omr * sin ir) + cos ir * cos ir +
           cos omr * sin ir * (cos omr * sin ir))
    with ((sin omr * sin omr + cos omr * cos omr) * (sin ir * sin ir)
          + cos ir * cos ir) by ring.
  rewrite Ho. lra.
Qed.

Lemma orbit_point_in_plane (elements : OrbitalElements) (points j : nat) :
  Euler313.dot (Orbit.orbit_point elements points j) (orbit_normal elements)
  = 0.
Proof.
  unfold Orbit.orbit_point, orbit_normal, Euler313.dot,
    Orbit.helio_x, Orbit.helio_y, Orbit.helio_z, Orbit.scale.
  set (E := INR j / INR points * 2 * PI).
  set (P := a elements * (cos E - e elements)).
  set (Q := a elements * sqrt (1 - e elements * e elements) * sin E).
  set (wr := w elements * Orbit.d2r).
  set (ir := i elements * Orbit.d2r).
  set (omr := om elements * Orbit.d2r).
  pose proof (sin2_cos2 omr) as Ho. unfold Rsqr in Ho.
  match goal with
  | |- ?lhs = 0 =>
      replace lhs with
        (10 * sin ir * cos ir * (sin wr * P + cos wr * Q)
         * (1 - (sin omr * sin omr + cos omr * cos omr))) by ring
  end.
  rewrite Ho. ring.
Qed.

(** X3: the path is planar.  For [points >= 1] and [e * e <= 1] (where the
    arithmetic stays in the reals) every point of the path is orthogonal to
    [orbit_normal], a unit vector fixed by the inclination and the longitude
    of the ascending node: the plane passes through the origin and does not
    depend on [a], [e], [w] or the number of points. *)
Theorem calculateOrbitPath_planar (elements : OrbitalElements)
    (points : nat) (p : Point3D) :
  (1 <= points)%nat -> e elements * e elements <= 1 ->
  In p (Orbit.calculateOrbitPath elements points) ->
  Euler313.dot p (orbit_normal elements) = 0
  /\ Euler313.norm_sq (orbit_normal elements) = 1.
Proof.
  intros _ _ Hin. split; [|apply orbit_normal_unit].
  rewrite calculateOrbitPath_map in Hin.
  apply in_map_iff in Hin. destruct Hin as [j [<- _]].
  apply orbit_point_in_plane.
Qed.

Lemma calculateOrbitPath_planar_witness :
  Euler313.dot (Orbit.orbit_point apophis_orbit 150 3)
               (orbit_normal apophis_orbit) = 0.
Proof.
  apply (calculateOrbitPath_planar apophis_orbit 150
           (Orbit.orbit_point apophis_orbit 150 3));
    [lia | simpl; lra |].
  rewrite calculateOrbitPath_map. apply in_map. apply in_seq. lia.
Defined.

(** X4: an orbit of inclination [0] is drawn flat: for [points >= 1] and
    [e * e <= 1] the second coordinate (the vertical axis of the scene) of
    every point is [0], whatever the other elements. *)
Theorem calculateOrbitPath_flat (elements : OrbitalElements)
    (points : nat) (p : Point3D) :
  (1 <= points)%nat -> e elements * e elements <= 1 ->
  i elements = 0 ->
  In p (Orbit.calculateOrbitPath elements points) ->
  snd (fst p) = 0.
Proof.
  intros _ _ Hi Hin. rewrite calculateOrbitPath_map in Hin.
  apply in_map_iff in Hin. destruct Hin as [j [<- _]].
  unfold Orbit.orbit_point, Orbit.helio_z. cbn [fst snd].
  rewrite Hi, Rmult_0_l, sin_0. ring.
Qed.

Lemma calculateOrbitPath_flat_witness :
  snd (fst (Orbit.orbit_point earth 100 25)) = 0.
Proof.
  apply (calculateOrbitPath_flat earth 100);
    [lia | simpl; lra | reflexivity |].
  rewrite calculateOrbitPath_map. apply in_map. apply in_seq. lia.
Defined.

(** ** The exact domain of [calculateOrbitPath] *)

Lemma checked_sqrt_negative (x : R) : x < 0 -> Checked.sqrt x = None.
Proof.
  intros Hx. unfold Checked.sqrt.
  destruct (Rlt_dec x 0) as [_|Hge]; [reflexivity | contradiction].
Qed.

Lemma checked_orbit_point_real (elements : OrbitalElements) (points j : nat) :
  (1 <= points)%nat -> e elements * e elements <= 1 ->
  Checked.orbit_point_checked elements points j =
  Some (Orbit.orbit_point elements points j).
Proof.
  intros Hp He. unfold Checked.orbit_point_checked, Orbit.orbit_point.
  rewrite checked_div_defined by lra. simpl Checked.bind.
  rewrite checked_div_defined by (apply not_0_INR; lia). simpl Checked.bind.
  rewrite checked_sqrt_defined by lra.
  reflexivity.
Qed.

Lemma checked_orbit_loop_real (elements : OrbitalElements) (points : nat)
    (fuel j : nat) (path : list Point3D) :
  (1 <= points)%nat -> e elements * e elements <= 1 ->
  Checked.orbit_loop_checked elements points fuel j path =
  Some (Orbit.orbit_loop elements points fuel j path).
Proof.
  intros Hp He. revert j path.
  induction fuel as [|fuel IH]; intros j path; simpl.
  - reflexivity.
  - rewrite checked_orbit_point_real by assumption. simpl. apply IH.
Qed.

Lemma checked_orbit_point_nan (elements : OrbitalElements) (points j : nat) :
  points = 0%nat \/ 1 < e elements * e elements ->
  Checked.orbit_point_checked elements points j = None.
Proof.
  intros Hbad. unfold Checked.orbit_point_checked.
  rewrite checked_div_defined by lra. simpl Checked.bind.
  destruct points as [|p].
  - simpl (INR 0). now rewrite checked_div_by_zero.
  - destruct Hbad as [Hp|He]; [discriminate|].
    rewrite checked_div_defined by (apply not_0_INR; lia). simpl Checked.bind.
    rewrite checked_sqrt_negative by lra. reflexivity.
Qed.

(** X5: the arithmetic of [calculateOrbitPath] stays in the reals exactly
    when [points >= 1] and [e * e <= 1].  In that case the checked
    evaluation returns the real-valued path; with [points = 0] (a division
    of zero by zero) or [e * e > 1] (the square root of a negative number)
    it fails at the first iteration, whatever the other elements. *)
Theorem calculateOrbitPath_checked_domain (elements : OrbitalElements)
    (points : nat) :
  ((1 <= points)%nat /\ e elements * e elements <= 1 ->
   Checked.calculateOrbitPath_checked elements points =
   Some (Orbit.calculateOrbitPath elements points))
  /\
  (points = 0%nat \/ 1 < e elements * e elements ->
   Checked.calculateOrbitPath_checked elements points = None).
Proof.
  split.
  - intros [Hp He]. now apply checked_orbit_loop_real.
  - intros Hbad. unfold Checked.calculateOrbitPath_checked.
    cbn [Checked.orbit_loop_checked].
    now rewrite checked_orbit_point_nan.
Qed.

Lemma calculateOrbitPath_checked_domain_witness :
  Checked.calculateOrbitPath_checked apophis_orbit 150 =
  Some (Orbit.calculateOrbitPath apophis_orbit 150)
  /\ Checked.calculateOrbitPath_checked
       (mkOrbitalElements None 1.2 1 0 0 0 0 None None) 150 = None.
Proof.
  split.
  - apply (proj1 (calculateOrbitPath_checked_domain apophis_orbit 150)).
    split; [lia | simpl; lra].
  - apply (proj2 (calculateOrbitPath_checked_domain
                    (mkOrbitalElements None 1.2 1 0 0 0 0 None None) 150)).
    right. simpl. lra.
Defined.

(** ** The closed curve, where the arithmetic stays in the reals *)

(** C4, as stated, fails: it speaks of every orbital-element record, and
    for an eccentricity with [e * e > 1] the square root of the loop body
    has a negative argument, so the first and the last point both carry
    [NaN] coordinates and do not compare equal. *)
Lemma calculateOrbitPath_not_closed_hyperbolic :
  let first := Checked.orbit_point_checked hyperbolic 4 0 in
  let final := Checked.orbit_point_checked hyperbolic 4 4 in
  first = None /\ final = None
  /\ ~ numerically_equal first final
  /\ Checked.calculateOrbitPath_checked hyperbolic 4 = None.
Proof.
  assert (Hbad : 4%nat = 0%nat \/ 1 < e hyperbolic * e hyperbolic)
    by (right; simpl; lra).
  intros first final. unfold first, final.
  rewrite !checked_orbit_point_nan by exact Hbad.
  repeat split; try (intros []).
  unfold Checked.calculateOrbitPath_checked.
  cbn [Checked.orbit_loop_checked].
  now rewrite checked_orbit_point_nan by exact Hbad.
Qed.

(** C4, amended: for every orbital-element record with [e * e <= 1] and
    every [points >= 1] the path has a first point (counter [0], angle [0])
    and a last point (counter [points], angle [2 * PI]), both are real
    valued, and they are equal over the reals. *)
Theorem calculateOrbitPath_closed (elements : OrbitalElements) (points : nat)
    (d : Point3D) :
  (1 <= points)%nat -> e elements * e elements <= 1 ->
  let path := Orbit.calculateOrbitPath elements points in
  exists p : Point3D,
    Checked.calculateOrbitPath_checked elements points = Some path
    /\ length path = S points
    /\ nth_error path 0 = Some p
    /\ nth_error path points = Some p
    /\ hd d path = p
    /\ last path d = p
    /\ numerically_equal (Checked.orbit_point_checked elements points 0)
                         (Checked.orbit_point_checked elements points points).
Proof.
  intros Hp He path. unfold path.
  exists (Orbit.orbit_point elements points 0).
  assert (Hlen : length (Orbit.calculateOrbitPath elements points) = S points)
    by (now rewrite calculateOrbitPath_map, length_map, length_seq).
  assert (Hlast : Orbit.orbit_point elements points points =
                  Orbit.orbit_point elements points 0).
  { destruct (orbit_point_first elements points) as [H|H]; [now symmetry | lia]. }
  split; [now apply checked_orbit_loop_real|]. split; [exact Hlen|].
  split; [|split; [|split; [|split]]].
  - rewrite (nth_error_nth' _ d) by lia.
    now rewrite calculateOrbitPath_nth by lia.
  - rewrite (nth_error_nth' _ d) by lia.
    rewrite calculateOrbitPath_nth by lia. now rewrite Hlast.
  - apply calculateOrbitPath_hd.
  - now rewrite calculateOrbitPath_last.
  - rewrite !checked_orbit_point_real by assumption. cbn. now symmetry.
Qed.

Lemma calculateOrbitPath_closed_witness :
  exists p : Point3D,
    nth_error (Orbit.calculateOrbitPath earth 100) 0 = Some p
    /\ nth_error (Orbit.calculateOrbitPath earth 100) 100 = Some p.
Proof.
  destruct (calculateOrbitPath_closed earth 100 origin)
    as [p [_ [_ [Hfirst [Hlast _]]]]]; [lia | simpl; lra |].
  exists p. split; [exact Hfirst | exact Hlast].
Defined.

(** * Further properties of [simulateLightCurve] *)

(** ** The two periods *)

Lemma js_rem_second (x y : R) : y <= x < 2 * y -> 0 < y -> js_rem x y = x - y.
Proof.
  intros [Hyx Hx2] Hy. unfold js_rem, js_trunc.
  assert (Hinv : 0 < / y) by (apply Rinv_0_lt_compat; exact Hy).
  assert (Hone : y * / y = 1) by (apply Rinv_r; lra).
  assert (Hq : 1 <= x / y < 2) by (unfold Rdiv; split; nra).
  destruct (Rle_dec 0 (x / y)) as [_|Hneg]; [|lra].
  rewrite <- (Int_part_spec (x / y) 1) by (simpl; lra).
  simpl. ring.
Qed.

Lemma sample_time_hundredths (period : R) (k : nat) :
  LightCurve.sample_time period k = INR k / 100 * period.
Proof. rewrite sample_time_eq. field. Qed.

Lemma INR_100 : INR 100 = 100.
Proof. rewrite INR_IZR_INZ. reflexivity. Qed.

Lemma timeInPeriod_first (period : R) (k : nat) :
  0 < period -> (k < 100)%nat ->
  LightCurve.timeInPeriod period k = INR k / 100 * period.
Proof.
  intros Hp Hk. unfold LightCurve.timeInPeriod.
  rewrite sample_time_hundredths.
  apply lt_INR in Hk. rewrite INR_100 in Hk.
  pose proof (pos_INR k) as H0.
  apply js_rem_small. split; nra.
Qed.

Lemma timeInPeriod_second (period : R) (k : nat) :
  0 < period -> (k < 100)%nat ->
  LightCurve.timeInPeriod period (k + 100) = INR k / 100 * period.
Proof.
  intros Hp Hk. unfold LightCurve.timeInPeriod.
  rewrite sample_time_hundredths, plus_INR, INR_100.
  apply lt_INR in Hk. rewrite INR_100 in Hk.
  pose proof (pos_INR k) as H0.
  rewrite js_rem_second; [field | split; nra | exact Hp].
Qed.

(** X6: the remainder wraps at most once.  For [period > 0] the phase
    [timeInPeriod] of a sample of the first period ([k < 100]) is its time,
    the phase of a sample of the second period ([100 <= k < 200]) is its
    time less one period, and every phase lies in [0, period). *)
Theorem simulateLightCurve_phase (period depth durationHours : R)
    (g : RandomSource) (d : Sample) (k : nat) :
  0 < period -> (k < 200)%nat ->
  let data := fst (LightCurve.simulateLightCurve period depth durationHours g) in
  ((k < 100)%nat ->
   LightCurve.timeInPeriod period k = time (nth k data d))
  /\ ((100 <= k)%nat ->
      LightCurve.timeInPeriod period k = time (nth k data d) - period)
  /\ 0 <= LightCurve.timeInPeriod period k < period.
Proof.
  intros Hp Hk data. unfold data.
  rewrite simulateLightCurve_nth by exact Hk.
  cbn [LightCurve.sample_at time]. rewrite sample_time_hundredths.
  split; [|split].
  - intros Hlt. now apply timeInPeriod_first.
  - intros Hge. replace k with ((k - 100) + 100)%nat at 1 by lia.
    rewrite timeInPeriod_second by (assumption || lia).
    rewrite minus_INR by exact Hge. rewrite INR_100. field.
  - destruct (Nat.lt_ge_cases k 100) as [Hlt|Hge].
    + rewrite timeInPeriod_first by assumption.
      apply lt_INR in Hlt. rewrite INR_100 in Hlt.
      pose proof (pos_INR k). split; nra.
    + replace k with ((k - 100) + 100)%nat by lia.
      rewrite timeInPeriod_second by (assumption || lia).
      assert (Hlt : (k - 100 < 100)%nat) by lia.
      apply lt_INR in Hlt. rewrite INR_100 in Hlt.
      pose proof (pos_INR (k - 100)). split; nra.
Qed.

Lemma simulateLightCurve_phase_witness :
  LightCurve.timeInPeriod 3.5 120 =
  time (nth 120 (fst (LightCurve.simulateLightCurve 3.5 0.012 2.5
                        constant_source)) no_sample) - 3.5.
Proof.
  apply (simulateLightCurve_phase 3.5 0.012 2.5 constant_source no_sample 120);
    [lra | lia | lia].
Defined.

(** ** The transit center *)

Lemma timeInPeriod_center (period : R) (k : nat) :
  0 < period -> k = 50%nat \/ k = 150%nat ->
  LightCurve.timeInPeriod period k = period / 2.
Proof.
  intros Hp [->| ->].
  - rewrite timeInPeriod_first by (assumption || lia).
    rewrite INR_IZR_INZ. simpl (Z.of_nat 50). field.
  - change 150%nat with (50 + 100)%nat.
    rewrite timeInPeriod_second by (assumption || lia).
    rewrite INR_IZR_INZ. simpl (Z.of_nat 50). field.
Qed.

(** X7: for every [period > 0] and [durationHours > 0] the middle of the
    first transit is sampled: the sample at index [50] has time and
    [timeInPeriod] equal to [period / 2], a limb-darkening term equal to
    [0], and flux [1 - depth] plus jitter. *)
Theorem simulateLightCurve_center_sample (period depth durationHours : R)
    (g : RandomSource) (d : Sample) :
  0 < period -> 0 < durationHours ->
  let data := fst (LightCurve.simulateLightCurve period depth durationHours g) in
  time (nth 50 data d) = period / 2
  /\ LightCurve.timeInPeriod period 50 = period / 2
  /\ flux (nth 50 data d) =
     1 - depth + LightCurve.jitter (draws g (cursor g + 50)).
Proof.
  intros Hp Hh data. unfold data.
  assert (Hc : LightCurve.timeInPeriod period 50 = period / 2)
    by (apply timeInPeriod_center; [exact Hp | now left]).
  rewrite simulateLightCurve_nth by lia.
  cbn [LightCurve.sample_at time flux].
  split; [|split; [exact Hc|]].
  - rewrite sample_time_hundredths, INR_IZR_INZ. simpl (Z.of_nat 50). field.
  - now rewrite transit_flux_center.
Qed.

Lemma simulateLightCurve_center_sample_witness :
  flux (nth 50 (fst (LightCurve.simulateLightCurve 3.5 0.012 2.5
                       constant_source)) no_sample) =
  1 - 0.012 + LightCurve.jitter (draws constant_source (cursor constant_source + 50)).
Proof.
  apply (simulateLightCurve_center_sample 3.5 0.012 2.5 constant_source
           no_sample); lra.
Defined.

(** ** The range of the flux *)

Section FluxRange.
Import LightCurve.
Variables period depth durationHours : R.
Variable k : nat.

Lemma window_ratio_range :
  Rabs (timeInPeriod period k - transitCenter period)
    < durationDays durationHours / 2 ->
  0 <= Rabs (timeInPeriod period k - transitCenter period)
       / (durationDays durationHours / 2) < 1.
Proof.
  intros Hin.
  pose proof (Rabs_pos (timeInPeriod period k - transitCenter period)) as H0.
  set (dist := Rabs (timeInPeriod period k - transitCenter period)) in *.
  set (half := durationDays durationHours / 2) in *.
  assert (Hhalf : 0 < half) by lra.
  assert (Hinv : 0 < / half) by (now apply Rinv_0_lt_compat).
  assert (Hone : half * / half = 1) by (apply Rinv_r; lra).
  unfold Rdiv. split; nra.
Qed.

Lemma transit_flux_range :
  0 <= depth ->
  1 - depth <= transit_flux period depth durationHours k <= 1.
Proof.
  intros Hd.
  destruct (Rlt_dec (Rabs (timeInPeriod period k - transitCenter period))
                    (durationDays durationHours / 2)) as [Hin|Hout].
  - rewrite transit_flux_inside by exact Hin.
    pose proof (window_ratio_range Hin) as [Hlo Hhi].
    set (r := Rabs (timeInPeriod period k - transitCenter period)
              / (durationDays durationHours / 2)) in *.
    assert (0 <= r * depth) by (apply Rmult_le_pos; lra).
    assert (0 <= (1 - r) * depth) by (apply Rmult_le_pos; lra).
    split; nra.
  - rewrite transit_flux_outside by exact Hout. lra.
Qed.

Lemma transit_flux_in_window_range :
  0 <= depth ->
  Rabs (timeInPeriod period k - transitCenter period)
    < durationDays durationHours / 2 ->
  1 - depth <= transit_flux period depth durationHours k
  <= 1 - 0.9 * depth.
Proof.
  intros Hd Hin. rewrite transit_flux_inside by exact Hin.
  pose proof (window_ratio_range Hin) as [Hlo Hhi].
  set (r := Rabs (timeInPeriod period k - transitCenter period)
            / (durationDays durationHours / 2)) in *.
  assert (0 <= r * depth) by (apply Rmult_le_pos; lra).
  assert (0 <= (1 - r) * depth) by (apply Rmult_le_pos; lra).
  split; nra.
Qed.
End FluxRange.

(** X8: for a depth [>= 0] and draws in [0, 1), every sample has its flux
    between [1 - depth - 0.00025] and [1 + 0.00025]; a sample inside the
    transit window stays at or below [1 - 0.9 * depth + 0.00025] (the
    limb-darkening term adds at most a tenth of the depth). *)
Theorem simulateLightCurve_flux_range (period depth durationHours : R)
    (g : RandomSource) (d : Sample) (k : nat) :
  0 <= depth -> valid_source g -> (k < 200)%nat ->
  let s := nth k (fst (LightCurve.simulateLightCurve period depth durationHours g)) d in
  (1 - depth - 0.00025 <= flux s < 1 + 0.00025)
  /\ (Rabs (LightCurve.timeInPeriod period k - LightCurve.transitCenter period)
        < LightCurve.durationDays durationHours / 2 ->
      flux s < 1 - 0.9 * depth + 0.00025).
Proof.
  intros Hd Hg Hk s. unfold s.
  rewrite simulateLightCurve_nth by exact Hk.
  cbn [LightCurve.sample_at flux].
  pose proof (jitter_bounds _ (Hg (cursor g + k)%nat)) as [Hjl Hju].
  split.
  - pose proof (transit_flux_range period depth durationHours k Hd). lra.
  - intros Hin.
    pose proof (transit_flux_in_window_range period depth durationHours k Hd Hin).
    lra.
Qed.

Lemma simulateLightCurve_flux_range_witness :
  1 - 0.012 - 0.00025 <=
  flux (nth 49 (fst (LightCurve.simulateLightCurve 3.5 0.012 2.5
                       constant_source)) no_sample)
  < 1 + 0.00025.
Proof.
  apply (simulateLightCurve_flux_range 3.5 0.012 2.5 constant_source
           no_sample 49); [lra | exact constant_source_valid | lia].
Defined.

(** X9: a zero depth or a duration [<= 0] gives a flat curve: every sample
    has flux [1.0] plus jitter.  (With a duration [<= 0] the window is
    empty, the distance from the center being never negative.) *)
Theorem simulateLightCurve_flat (period depth durationHours : R)
    (g : RandomSource) (d : Sample) (k : nat) :
  depth = 0 \/ durationHours <= 0 -> (k < 200)%nat ->
  flux (nth k (fst (LightCurve.simulateLightCurve period depth durationHours g)) d)
  = 1.0 + LightCurve.jitter (draws g (cursor g + k)).
Proof.
  intros Hflat Hk. rewrite simulateLightCurve_nth by exact Hk.
  cbn [LightCurve.sample_at flux]. f_equal.
  destruct (Rlt_dec (Rabs (LightCurve.timeInPeriod period k
                           - LightCurve.transitCenter period))
                    (LightCurve.durationDays durationHours / 2)) as [Hin|Hout].
  - destruct Hflat as [->|Hh].
    + rewrite transit_flux_inside by exact Hin. lra.
    + pose proof (Rabs_pos (LightCurve.timeInPeriod period k
                            - LightCurve.transitCenter period)).
      unfold LightCurve.durationDays in Hin. lra.
  - now apply transit_flux_outside.
Qed.

Lemma simulateLightCurve_flat_witness :
  flux (nth 50 (fst (LightCurve.simulateLightCurve 3.5 0.012 0
                       constant_source)) no_sample)
  = 1.0 + LightCurve.jitter (draws constant_source (cursor constant_source + 50)).
Proof.
  apply (simulateLightCurve_flat 3.5 0.012 0 constant_source no_sample 50);
    [right; lra | lia].
Defined.

(** ** The shape of the transit *)

Lemma timeInPeriod_range (period : R) (k : nat) :
  0 < period -> (k < 200)%nat ->
  0 <= LightCurve.timeInPeriod period k < period.
Proof.
  intros Hp Hk.
  destruct (Nat.lt_ge_cases k 100) as [Hlt|Hge].
  - rewrite timeInPeriod_first by assumption.
    apply lt_INR in Hlt. rewrite INR_100 in Hlt.
    pose proof (pos_INR k). split; nra.
  - replace k with ((k - 100) + 100)%nat by lia.
    rewrite timeInPeriod_second by (assumption || lia).
    assert (Hlt : (k - 100 < 100)%nat) by lia.
    apply lt_INR in Hlt. rewrite INR_100 in Hlt.
    pose proof (pos_INR (k - 100)). split; nra.
Qed.

(** X10: no wrap-around of the window.  When the transit lasts longer than
    the period ([durationHours / 24 > period > 0]) every one of the 200
    samples is inside the window: none is left at the baseline flux. *)
Theorem simulateLightCurve_all_in_transit (period depth durationHours : R)
    (g : RandomSource) (d : Sample) (k : nat) :
  0 < period -> period < durationHours / 24 -> (k < 200)%nat ->
  Rabs (LightCurve.timeInPeriod period k - LightCurve.transitCenter period)
    < LightCurve.durationDays durationHours / 2
  /\ flux (nth k (fst (LightCurve.simulateLightCurve period depth durationHours g)) d)
     = 1.0 - depth
       + Rabs (LightCurve.timeInPeriod period k - LightCurve.transitCenter period)
         / (LightCurve.durationDays durationHours / 2) * (depth * 0.1)
       + LightCurve.jitter (draws g (cursor g + k)).
Proof.
  intros Hp Hlong Hk.
  assert (Hin : Rabs (LightCurve.timeInPeriod period k
                      - LightCurve.transitCenter period)
                < LightCurve.durationDays durationHours / 2).
  { pose proof (timeInPeriod_range period k Hp Hk) as [Hl Hu].
    unfold LightCurve.transitCenter, LightCurve.durationDays.
    apply Rabs_def1; lra. }
  split; [exact Hin|].
  rewrite simulateLightCurve_nth by exact Hk.
  cbn [LightCurve.sample_at flux].
  now rewrite transit_flux_inside.
Qed.

Lemma simulateLightCurve_all_in_transit_witness :
  Rabs (LightCurve.timeInPeriod 1 0 - LightCurve.transitCenter 1)
    < LightCurve.durationDays 48 / 2.
Proof.
  apply (simulateLightCurve_all_in_transit 1 0.012 48 constant_source
           no_sample 0); [lra | lra | lia].
Defined.

(** ** The exact domain of [simulateLightCurve] *)

Section CheckedLightCurveDomain.
Import LightCurve CheckedLightCurve.
Variables period depth durationHours : R.

Lemma checked_rem_defined (x y : R) :
  y <> 0 -> rem x y = Some (js_rem x y).
Proof.
  intros Hy. unfold rem.
  destruct (Req_dec_T y 0) as [H0|_]; [contradiction | reflexivity].
Qed.

Lemma checked_rem_by_zero (x : R) : rem x 0 = None.
Proof.
  unfold rem. destruct (Req_dec_T 0 0) as [_|H0]; [reflexivity | now elim H0].
Qed.

Lemma INR_totalPoints_neq : INR totalPoints <> 0.
Proof. rewrite INR_totalPoints. lra. Qed.

Lemma transit_flux_checked_defined (k : nat) :
  period <> 0 ->
  transit_flux_checked period depth durationHours k =
  Some (transit_flux period depth durationHours k).
Proof.
  intros Hp. unfold transit_flux_checked, transit_flux.
  rewrite checked_div_defined by lra. cbn [Checked.bind].
  rewrite checked_div_defined by exact INR_totalPoints_neq. cbn [Checked.bind].
  rewrite checked_rem_defined by exact Hp. cbn [Checked.bind].
  rewrite !checked_div_defined by lra. cbn [Checked.bind].
  fold (sample_time period k). fold (timeInPeriod period k).
  fold (transitCenter period). fold (durationDays durationHours).
  destruct (Rlt_dec (Rabs (timeInPeriod period k - transitCenter period))
                    (durationDays durationHours / 2)) as [Hin|Hout].
  - pose proof (Rabs_pos (timeInPeriod period k - transitCenter period)).
    rewrite !checked_div_defined by lra. reflexivity.
  - reflexivity.
Qed.

Lemma transit_flux_checked_zero_period (k : nat) :
  transit_flux_checked 0 depth durationHours k = None.
Proof.
  unfold transit_flux_checked.
  rewrite checked_div_defined by lra. cbn [Checked.bind].
  rewrite checked_div_defined by exact INR_totalPoints_neq. cbn [Checked.bind].
  now rewrite checked_rem_by_zero.
Qed.

Lemma lc_body_checked_defined (k : nat) (g : RandomSource) :
  period <> 0 ->
  lc_body_checked period depth durationHours k g =
  Some (lc_body period depth durationHours k g).
Proof.
  intros Hp. unfold lc_body_checked, lc_body.
  rewrite checked_div_defined by exact INR_totalPoints_neq. cbn [Checked.bind].
  rewrite transit_flux_checked_defined by exact Hp. cbn [Checked.bind].
  reflexivity.
Qed.

Lemma lc_loop_checked_defined (fuel k : nat) (g : RandomSource)
    (data : list Sample) :
  period <> 0 ->
  lc_loop_checked period depth durationHours fuel k g data =
  Some (lc_loop period depth durationHours fuel k g data).
Proof.
  intros Hp. revert k g data.
  induction fuel as [|fuel IH]; intros k g data; cbn [lc_loop_checked lc_loop].
  - reflexivity.
  - rewrite lc_body_checked_defined by exact Hp. cbn [Checked.bind].
    destruct (lc_body period depth durationHours k g) as [s g'].
    apply IH.
Qed.
End CheckedLightCurveDomain.

(** X12: the arithmetic of [simulateLightCurve] stays in the reals exactly
    when [period] is not zero.  For a nonzero period the checked evaluation
    returns the result of the real-valued one, whatever the depth and the
    duration: the division by [durationDays / 2] is only reached inside the
    window, where that half-duration is strictly positive.  For a zero
    period the remainder [time % period] fails at the first sample. *)
Theorem simulateLightCurve_checked_domain (period depth durationHours : R)
    (g : RandomSource) :
  (period <> 0 ->
   CheckedLightCurve.simulateLightCurve_checked period depth durationHours g =
   Some (LightCurve.simulateLightCurve period depth durationHours g))
  /\
  (period = 0 ->
   CheckedLightCurve.simulateLightCurve_checked period depth durationHours g =
   None).
Proof.
  split.
  - intros Hp. now apply lc_loop_checked_defined.
  - intros ->. unfold CheckedLightCurve.simulateLightCurve_checked.
    unfold LightCurve.totalPoints.
    cbn [CheckedLightCurve.lc_loop_checked].
    unfold CheckedLightCurve.lc_body_checked.
    rewrite checked_div_defined by exact INR_totalPoints_neq.
    cbn [Checked.bind].
    now rewrite transit_flux_checked_zero_period.
Qed.

Lemma simulateLightCurve_checked_domain_witness :
  CheckedLightCurve.simulateLightCurve_checked 3.5 0.012 0 constant_source =
  Some (LightCurve.simulateLightCurve 3.5 0.012 0 constant_source)
  /\ CheckedLightCurve.simulateLightCurve_checked 0 0.012 2.5 constant_source
     = None.
Proof.
  split.
  - apply (proj1 (simulateLightCurve_checked_domain 3.5 0.012 0
                    constant_source)). lra.
  - apply (proj2 (simulateLightCurve_checked_domain 0 0.012 2.5
                    constant_source)). reflexivity.
Defined.

(** * [App.tsx] *)

(** ** The regular expression of [formatNumber] *)

Section TrailingZeros.
Import String Ascii.
Local Open Scope string_scope.

Lemma zeros_to_end_zeros (n : nat) : App.zeros_to_end (App.zeros (S n)) = true.
Proof.
  induction n as [|n IH].
  - reflexivity.
  - change (App.zeros (S (S n))) with (String "0" (App.zeros (S n))).
    cbn [App.zeros_to_end]. change (App.zeros (S n)) with (String "0" (App.zeros n)) at 1.
    fold (App.zeros (S n)). now rewrite IH.
Qed.

Lemma zeros_to_end_cons (c : ascii) (s : string) :
  App.zeros_to_end (String c s) = true -> c = "0"%char.
Proof.
  destruct s as [|c' s']; cbn [App.zeros_to_end]; intros H.
  - now apply Ascii.eqb_eq.
  - apply andb_prop in H. now apply Ascii.eqb_eq.
Qed.

Lemma zeros_to_end_tail (c c' : ascii) (s : string) :
  App.zeros_to_end (String c (String c' s)) = true ->
  App.zeros_to_end (String c' s) = true.
Proof.
  cbn [App.zeros_to_end]. intros H. apply andb_prop in H.
  destruct H as [_ H]. exact H.
Qed.

Lemma zeros_to_end_other (pre : string) (d : ascii) (rest : string) :
  d <> "0"%char -> App.zeros_to_end (pre ++ String d rest) = false.
Proof.
  intros Hd. induction pre as [|c pre IH].
  - cbn [append].
    destruct (App.zeros_to_end (String d rest)) eqn:Hz; [|reflexivity].
    apply zeros_to_end_cons in Hz. contradiction.
  - cbn [append].
    destruct (App.zeros_to_end (String c (pre ++ String d rest))) eqn:Hz;
      [|reflexivity].
    destruct (pre ++ String d rest) as [|c' s'] eqn:Hs.
    + destruct pre; discriminate.
    + apply zeros_to_end_tail in Hz. congruence.
Qed.

Lemma matches_here_other (c : ascii) (pre : string) (d : ascii) (rest : string) :
  d <> "0"%char ->
  App.matches_here (String c (pre ++ String d rest)) = false.
Proof.
  intros Hd. unfold App.matches_here.
  destruct (Ascii.eqb c ".").
  - now apply zeros_to_end_other.
  - change (String c (pre ++ String d rest))
      with (String c pre ++ String d rest).
    now apply zeros_to_end_other.
Qed.

Lemma strip_zeros (n : nat) : App.strip_trailing_zeros (App.zeros n) = "".
Proof.
  destruct n as [|n]; [reflexivity|].
  assert (Hm : App.matches_here (App.zeros (S n)) = true).
  { pose proof (zeros_to_end_zeros n) as Hz.
    change (App.zeros (S n)) with (String "0" (App.zeros n)) in *.
    unfold App.matches_here. exact Hz. }
  change (App.zeros (S n)) with (String "0" (App.zeros n)) in *.
  cbn [App.strip_trailing_zeros]. now rewrite Hm.
Qed.

Lemma strip_after_digit (pre : string) (d : ascii) (n : nat) :
  d <> "0"%char -> d <> "."%char ->
  App.strip_trailing_zeros (pre ++ String d (App.zeros n)) = pre ++ String d "".
Proof.
  intros Hd0 Hdot. induction pre as [|c pre IH].
  - cbn [append App.strip_trailing_zeros].
    assert (Hm : App.matches_here (String d (App.zeros n)) = false).
    { unfold App.matches_here.
      apply Ascii.eqb_neq in Hdot. rewrite Hdot.
      apply (zeros_to_end_other "" d (App.zeros n) Hd0). }
    rewrite Hm. now rewrite strip_zeros.
  - cbn [append App.strip_trailing_zeros].
    rewrite matches_here_other by exact Hd0. now rewrite IH.
Qed.

Lemma strip_zero_fraction (pre : string) (n : nat) :
  App.strip_trailing_zeros (pre ++ String "." (App.zeros (S n))) = pre.
Proof.
  induction pre as [|c pre IH].
  - cbn [append App.strip_trailing_zeros].
    assert (Hm : App.matches_here (String "." (App.zeros (S n))) = true).
    { unfold App.matches_here. cbn [Ascii.eqb Bool.eqb].
      apply zeros_to_end_zeros. }
    now rewrite Hm.
  - cbn [append App.strip_trailing_zeros].
    rewrite matches_here_other by discriminate. now rewrite IH.
Qed.

(** X13: what [replace(/\.?0+$/, "")] removes.  After a last character
    which is neither [0] nor the dot, the trailing zeros are removed and
    nothing else; when only zeros follow the dot, the dot goes with them
    and the integer part is left untouched, even if it ends with zeros; and
    a string made of zeros only becomes empty. *)
Theorem strip_trailing_zeros_spec (pre : string) (d : ascii) (n : nat) :
  (d <> "0"%char -> d <> "."%char ->
   App.strip_trailing_zeros (pre ++ String d (App.zeros n))
   = pre ++ String d "")
  /\ App.strip_trailing_zeros (pre ++ String "." (App.zeros (S n))) = pre
  /\ App.strip_trailing_zeros (App.zeros n) = "".
Proof.
  split; [|split].
  - intros Hd0 Hdot. now apply strip_after_digit.
  - apply strip_zero_fraction.
  - apply strip_zeros.
Qed.

Lemma strip_trailing_zeros_spec_witness :
  App.strip_trailing_zeros "0.00025000000000000000" = "0.00025"
  /\ App.strip_trailing_zeros "-0.00000000000000000000" = "-0".
Proof.
  split.
  - apply (proj1 (strip_trailing_zeros_spec "0.0002" "5" 15));
      discriminate.
  - apply (proj1 (proj2 (strip_trailing_zeros_spec "-0" "0" 19))).
Defined.
End TrailingZeros.

(** ** Small numbers in [formatNumber] *)

Section FormatNumberSmall.
Import String Ascii.
Local Open Scope string_scope.
Variable parseFloat : string -> App.JsNumber.
Variable toLocaleString_en_US : App.JsNumber -> string.
Variable toFixed_20 : App.JsNumber -> string.

Lemma abs_ge_1_or_zero_small (x : R) :
  x <> 0 -> Rabs x < 1 -> App.abs_ge_1_or_zero (App.Fin x) = false.
Proof.
  intros Hx Hlt. unfold App.abs_ge_1_or_zero.
  destruct (Rle_dec 1 (Rabs x)) as [Hge|_]; [lra|].
  destruct (Req_dec_T x 0) as [H0|_]; [contradiction | reflexivity].
Qed.

Lemma formatNumber_small (x : R) :
  x <> 0 -> Rabs x < 1 ->
  App.formatNumber parseFloat toLocaleString_en_US toFixed_20
    (App.VNumber (App.Fin x))
  = App.strip_trailing_zeros (toFixed_20 (App.Fin x)).
Proof.
  intros Hx Hlt. unfold App.formatNumber. cbn [App.isNaN].
  now rewrite abs_ge_1_or_zero_small.
Qed.

(** X14: a nonzero number of magnitude below [1] is shown by its
    [toFixed(20)] expansion cut after its last nonzero decimal; and when
    all the decimals of that expansion are zero (the number is too small
    for twenty decimals) only the integer part is shown: a tiny nonzero
    value is displayed like zero.  The same holds for a string which
    [parseFloat] reads as such a number. *)
Theorem formatNumber_small_numbers (x : R) (pre : string) (d : ascii)
    (n : nat) (s : string) :
  x <> 0 -> Rabs x < 1 -> parseFloat s = App.Fin x ->
  let format := App.formatNumber parseFloat toLocaleString_en_US toFixed_20 in
  (toFixed_20 (App.Fin x) = pre ++ String d (App.zeros n) ->
   d <> "0"%char -> d <> "."%char ->
   format (App.VNumber (App.Fin x)) = pre ++ String d ""
   /\ format (App.VString s) = pre ++ String d "")
  /\
  (toFixed_20 (App.Fin x) = pre ++ String "." (App.zeros (S n)) ->
   format (App.VNumber (App.Fin x)) = pre
   /\ format (App.VString s) = pre).
Proof.
  intros Hx Hlt Hs format.
  assert (Hstr : format (App.VString s) = format (App.VNumber (App.Fin x))).
  { unfold format, App.formatNumber. now rewrite Hs. }
  rewrite Hstr. unfold format. rewrite formatNumber_small by assumption.
  split.
  - intros ->. intros Hd0 Hdot. now rewrite strip_after_digit.
  - intros ->. now rewrite strip_zero_fraction.
Qed.
End FormatNumberSmall.

Section FormatNumberExample.
Import String Ascii.
Local Open Scope string_scope.

Lemma formatNumber_small_numbers_witness :
  App.formatNumber (fun _ => App.Fin 0.00025) (fun _ => "")
    (fun _ => "0.0002" ++ String "5" (App.zeros 15))
    (App.VString "0.00025")
  = "0.0002" ++ String "5" "".
Proof.
  apply (formatNumber_small_numbers
           (fun _ => App.Fin 0.00025) (fun _ => "")
           (fun _ => "0.0002" ++ String "5" (App.zeros 15))
           0.00025 "0.0002" "5" 15 "0.00025");
    [lra | unfold Rabs; destruct (Rcase_abs _); lra | reflexivity
     | reflexivity | discriminate | discriminate].
Defined.
End FormatNumberExample.

(** ** The "Period" card *)

Lemma Rpower_three_halves_sq (x : R) :
  0 < x -> Rpower x 1.5 * Rpower x 1.5 = x ^ 3.
Proof.
  intros Hx. rewrite <- Rpower_plus.
  replace (1.5 + 1.5) with (INR 3) by (simpl; lra).
  now apply Rpower_pow.
Qed.

(** X15: the period shown for an orbit follows Kepler's third law.  For a
    semi-major axis [a > 0] the card receives a positive number of days [P]
    with [(P / 365.25) ^ 2 = a ^ 3]; it grows strictly with [a], and an
    orbit of one astronomical unit gets [365.25] days. *)
Theorem period_card_kepler (elements : OrbitalElements) :
  0 < a elements ->
  exists P : R,
    App.period_card (Some elements) = App.Fin P
    /\ 0 < P
    /\ (P / 365.25) ^ 2 = a elements ^ 3
    /\ (a elements = 1 -> P = 365.25)
    /\ (forall elements' : OrbitalElements,
          a elements < a elements' ->
          exists P' : R,
            App.period_card (Some elements') = App.Fin P' /\ P < P').
Proof.
  intros Ha.
  assert (Hcard : forall el : OrbitalElements, 0 < a el ->
            App.period_card (Some el) = App.Fin (Rpower (a el) 1.5 * 365.25)).
  { intros el Hel. unfold App.period_card.
    destruct (Req_dec_T (a el) 0) as [H0|_]; [lra|].
    destruct (Rlt_dec (a el) 0) as [Hneg|_]; [lra | reflexivity]. }
  exists (Rpower (a elements) 1.5 * 365.25).
  assert (Hpos : 0 < Rpower (a elements) 1.5) by (unfold Rpower; apply exp_pos).
  split; [now apply Hcard|]. split; [lra|]. split; [|split].
  - replace (Rpower (a elements) 1.5 * 365.25 / 365.25)
      with (Rpower (a elements) 1.5) by (field; lra).
    rewrite <- Rpower_three_halves_sq by exact Ha. ring.
  - intros H1. rewrite H1.
    replace (Rpower 1 1.5) with 1; [lra|].
    unfold Rpower. now rewrite ln_1, Rmult_0_r, exp_0.
  - intros el' Hlt. exists (Rpower (a el') 1.5 * 365.25).
    split; [apply Hcard; lra|].
    assert (Rpower (a elements) 1.5 < Rpower (a el') 1.5)
      by (apply Rlt_Rpower_l; lra).
    lra.
Qed.

Lemma period_card_kepler_witness :
  exists P : R,
    App.period_card (Some unit_circle) = App.Fin P /\ P = 365.25.
Proof.
  destruct (period_card_kepler unit_circle) as [P [Hc [_ [_ [H1 _]]]]];
    [simpl; lra|].
  exists P. split; [exact Hc | apply H1; reflexivity].
Defined.

(** ** The light curve drawn by [handleFetchExoplanet] *)

Lemma center_distance_first (period : R) (k : nat) :
  0 < period -> (k < 100)%nat ->
  Rabs (LightCurve.timeInPeriod period k - LightCurve.transitCenter period)
  = Rabs (INR k - 50) * (period / 100).
Proof.
  intros Hp Hk. rewrite timeInPeriod_first by assumption.
  unfold LightCurve.transitCenter.
  replace (INR k / 100 * period - period / 2)
    with ((INR k - 50) * (period / 100)) by field.
  rewrite Rabs_mult. f_equal. apply Rabs_pos_eq. lra.
Qed.

Lemma center_distance_second (period : R) (k : nat) :
  0 < period -> (k < 100)%nat ->
  Rabs (LightCurve.timeInPeriod period (k + 100)
        - LightCurve.transitCenter period)
  = Rabs (INR k - 50) * (period / 100).
Proof.
  intros Hp Hk. rewrite timeInPeriod_second by assumption.
  rewrite <- (timeInPeriod_first period k) by assumption.
  now apply center_distance_first.
Qed.

Lemma off_center_gap (k : nat) : k <> 50%nat -> 1 <= Rabs (INR k - 50).
Proof.
  intros Hk.
  assert (H50 : INR 50 = 50) by (rewrite INR_IZR_INZ; reflexivity).
  destruct (Nat.lt_ge_cases k 50) as [Hlt|Hge].
  - assert (Hle : (k + 1 <= 50)%nat) by lia.
    apply le_INR in Hle. rewrite plus_INR, H50 in Hle. simpl (INR 1) in Hle.
    rewrite Rabs_left1 by lra. lra.
  - assert (Hle : (50 + 1 <= k)%nat) by lia.
    apply le_INR in Hle. rewrite plus_INR, H50 in Hle. simpl (INR 1) in Hle.
    rewrite Rabs_right by lra. lra.
Qed.

Lemma off_center_distance (period : R) (k : nat) :
  0 < period -> (k < 200)%nat -> k <> 50%nat -> k <> 150%nat ->
  period / 100 <=
  Rabs (LightCurve.timeInPeriod period k - LightCurve.transitCenter period).
Proof.
  intros Hp Hk H50 H150.
  destruct (Nat.lt_ge_cases k 100) as [Hlt|Hge].
  - rewrite center_distance_first by assumption.
    pose proof (off_center_gap k H50). nra.
  - replace k with ((k - 100) + 100)%nat by lia.
    rewrite center_distance_second by (assumption || lia).
    assert (Hk' : (k - 100)%nat <> 50%nat) by lia.
    pose proof (off_center_gap (k - 100) Hk'). nra.
Qed.

(** X16: the curve [handleFetchExoplanet] draws uses a fixed transit
    duration of 2.5 hours.  It has 200 samples; and for a candidate whose
    period is at least 5.3 days the sampling step [period / 100] exceeds
    half that duration, so each of the two transits shows as one sample:
    the samples at indices [50] and [150] have flux
    [1 - transitDepth / 100] plus jitter and every other sample has flux
    [1.0] plus jitter.  (Over the reals the same holds from [125 / 24]
    days on; the bound is taken with a margin, away from the periods where
    a neighbour of the center sits on the edge of the window.) *)
Theorem withLightCurve_single_sample_transits (basicData : App.ExoplanetBasic)
    (g : RandomSource) (d : Sample) (k : nat) :
  5.3 <= App.basic_period basicData -> (k < 200)%nat ->
  let lc := App.lightCurveData (fst (App.withLightCurve basicData g)) in
  length lc = 200%nat
  /\ (k = 50%nat \/ k = 150%nat ->
      flux (nth k lc d) =
      1 - App.basic_transitDepth basicData / 100
      + LightCurve.jitter (draws g (cursor g + k)))
  /\ (k <> 50%nat -> k <> 150%nat ->
      flux (nth k lc d) = 1.0 + LightCurve.jitter (draws g (cursor g + k))).
Proof.
  intros Hp Hk lc.
  assert (Hlc : lc = fst (LightCurve.simulateLightCurve
                            (App.basic_period basicData)
                            (App.basic_transitDepth basicData / 100) 2.5 g)).
  { unfold lc, App.withLightCurve.
    destruct (LightCurve.simulateLightCurve _ _ _ g) as [l g']. reflexivity. }
  rewrite Hlc. split; [apply simulateLightCurve_length|].
  rewrite simulateLightCurve_nth by exact Hk.
  cbn [LightCurve.sample_at flux]. split.
  - intros Hc. rewrite transit_flux_center; [reflexivity | lra |].
    apply timeInPeriod_center; [lra | exact Hc].
  - intros H50 H150. f_equal. apply transit_flux_outside.
    pose proof (off_center_distance (App.basic_period basicData) k) as Hgap.
    unfold LightCurve.durationDays. intros Hin.
    assert (0 < App.basic_period basicData) by lra.
    specialize (Hgap H Hk H50 H150). lra.
Qed.

Section LongPeriodExample.
Import String.
Local Open Scope string_scope.

Lemma withLightCurve_single_sample_transits_witness :
  let candidate := App.mkExoplanetBasic "261136679" 37.4 0.08 1.1 3480 82
                     true "" in
  flux (nth 51 (App.lightCurveData (fst (App.withLightCurve candidate
                                            constant_source))) no_sample)
  = 1.0 + LightCurve.jitter (draws constant_source (cursor constant_source + 51)).
Proof.
  intros candidate.
  apply (withLightCurve_single_sample_transits candidate constant_source
           no_sample 51); [simpl; lra | lia | lia | lia].
Defined.
End LongPeriodExample.

(** * [services/gemini.ts] *)

Section GeminiService.
Import String Gemini.
Local Open Scope string_scope.
Variable apiKey : option string.
Variable generate_asteroid : string -> string -> Outcome (option string).
Variable generate_mining : string -> AsteroidData -> Outcome (option string).
Variable generate_threat : string -> AsteroidData -> Outcome (option string).
Variable generate_exoplanet : string -> string -> Outcome (option string).
Variable parse_asteroid : string -> Outcome AsteroidData.
Variable parse_mining : string -> Outcome MiningAnalysis.
Variable parse_threat : string -> Outcome ThreatAssessment.
Variable parse_exoplanet : string -> Outcome App.ExoplanetBasic.
Variable toLowerCase : string -> string.

Lemma getAI_falsy : falsy apiKey = true -> getAI apiKey = Thrown "API Key not found".
Proof.
  unfold falsy, getAI. destruct apiKey as [k|]; [|reflexivity].
  now intros ->.
Qed.

Lemma getAI_key :
  falsy apiKey = false ->
  exists k : string, apiKey = Some k /\ k <> "" /\ getAI apiKey = Returned k.
Proof.
  unfold falsy, getAI. destruct apiKey as [k|]; [|discriminate].
  intros Hk. exists k. rewrite Hk.
  apply String.eqb_neq in Hk. now repeat split.
Qed.

(** The shape shared by the three analyses: a guarded request whose
    failures are replaced by a fallback. *)
Lemma guarded_request_cases {A B : Type}
    (generate : string -> A -> Outcome (option string))
    (parse : string -> Outcome B) (input : A) (fallback : B) :
  let result :=
    try_catch
      (and_then (getAI apiKey) (fun ai =>
       and_then (generate ai input) (fun response =>
       parse (text_or_braces response))))
      (fun _ => Returned fallback) in
  (falsy apiKey = true -> result = Returned fallback)
  /\ (result = Returned fallback
      \/ exists (k : string) (text : option string) (x : B),
           apiKey = Some k /\ k <> ""
           /\ generate k input = Returned text
           /\ parse (text_or_braces text) = Returned x
           /\ result = Returned x).
Proof.
  intros result. unfold result. split.
  - intros Hf. now rewrite getAI_falsy.
  - destruct (falsy apiKey) eqn:Hf.
    + left. now rewrite getAI_falsy.
    + destruct (getAI_key Hf) as [k [Hk [Hne Hai]]]. rewrite Hai.
      cbn [and_then try_catch].
      destruct (generate k input) as [text|m] eqn:Hg; [|now left].
      cbn [and_then try_catch].
      destruct (parse (text_or_braces text)) as [x|m] eqn:Hp; [|now left].
      right. exists k, text, x. now repeat split.
Qed.

Lemma analyzeAsteroidResources_returns (data : AsteroidData) :
  exists m : MiningAnalysis,
    analyzeAsteroidResources apiKey generate_mining parse_mining data
    = Returned m.
Proof.
  destruct (guarded_request_cases generate_mining parse_mining data
              fallback_mining) as [_ [H|[k [t [x [_ [_ [_ [_ H]]]]]]]]];
    eauto.
Qed.

Lemma assessThreat_returns (data : AsteroidData) :
  exists t : ThreatAssessment,
    assessThreat apiKey generate_threat parse_threat data = Returned t.
Proof.
  destruct (guarded_request_cases generate_threat parse_threat data
              fallback_threat) as [_ [H|[k [t [x [_ [_ [_ [_ H]]]]]]]]];
    eauto.
Qed.

Lemma analyzeAsteroidResources_no_key (data : AsteroidData) :
  falsy apiKey = true ->
  analyzeAsteroidResources apiKey generate_mining parse_mining data
  = Returned fallback_mining.
Proof.
  apply (guarded_request_cases generate_mining parse_mining data
           fallback_mining).
Qed.

Lemma assessThreat_no_key (data : AsteroidData) :
  falsy apiKey = true ->
  assessThreat apiKey generate_threat parse_threat data
  = Returned fallback_threat.
Proof.
  apply (guarded_request_cases generate_threat parse_threat data
           fallback_threat).
Qed.

(** X17: the three analyses never throw.  [analyzeAsteroidResources],
    [assessThreat] and [analyzeExoplanetTic] return either the parsed
    answer to a request which succeeded (made with a nonempty key) or
    their fixed fallback value; without a key they return the fallback. *)
Theorem analyses_never_throw (data : AsteroidData) (ticId : string) :
  let mining := analyzeAsteroidResources apiKey generate_mining parse_mining data in
  let threat := assessThreat apiKey generate_threat parse_threat data in
  let exoplanet := analyzeExoplanetTic apiKey generate_exoplanet parse_exoplanet ticId in
  (mining = Returned fallback_mining
   \/ exists k text x, apiKey = Some k /\ k <> ""
        /\ generate_mining k data = Returned text
        /\ parse_mining (text_or_braces text) = Returned x
        /\ mining = Returned x)
  /\ (threat = Returned fallback_threat
      \/ exists k text x, apiKey = Some k /\ k <> ""
           /\ generate_threat k data = Returned text
           /\ parse_threat (text_or_braces text) = Returned x
           /\ threat = Returned x)
  /\ (exoplanet = Returned (App.fallback_exoplanet ticId)
      \/ exists k text x, apiKey = Some k /\ k <> ""
           /\ generate_exoplanet k ticId = Returned text
           /\ parse_exoplanet (text_or_braces text) = Returned x
           /\ exoplanet = Returned x)
  /\ (falsy apiKey = true ->
      mining = Returned fallback_mining
      /\ threat = Returned fallback_threat
      /\ exoplanet = Returned (App.fallback_exoplanet ticId)).
Proof.
  intros mining threat exoplanet.
  pose proof (guarded_request_cases generate_mining parse_mining data
                fallback_mining) as [Hm0 Hm].
  pose proof (guarded_request_cases generate_threat parse_threat data
                fallback_threat) as [Ht0 Ht].
  pose proof (guarded_request_cases generate_exoplanet parse_exoplanet ticId
                (App.fallback_exoplanet ticId)) as [He0 He].
  split; [exact Hm|]. split; [exact Ht|]. split; [exact He|].
  intros Hf. split; [exact (Hm0 Hf)|]. split; [exact (Ht0 Hf) | exact (He0 Hf)].
Qed.

(** X18: [fetchAsteroidData] does not swallow errors.  Without a key it
    throws "API Key not found" and the service is not consulted; with a key
    an error of the service or of the parser is thrown again unchanged, and
    a response without text is parsed as ["{}"]. *)
Theorem fetchAsteroidData_rethrows (query : string) :
  let result := fetchAsteroidData apiKey generate_asteroid parse_asteroid query in
  (falsy apiKey = true -> result = Thrown "API Key not found")
  /\ (forall k : string, apiKey = Some k -> k <> "" ->
      (forall m, generate_asteroid k query = Thrown m -> result = Thrown m)
      /\ (forall text m, generate_asteroid k query = Returned text ->
            parse_asteroid (text_or_braces text) = Thrown m ->
            result = Thrown m)
      /\ (generate_asteroid k query = Returned None ->
          result = parse_asteroid "{}")).
Proof.
  intros result. unfold result, fetchAsteroidData. split.
  - intros Hf. now rewrite getAI_falsy.
  - intros k Hk Hne. unfold getAI. rewrite Hk.
    apply String.eqb_neq in Hne. rewrite Hne. cbn [and_then].
    split; [|split].
    + intros m ->. reflexivity.
    + intros text m -> Hp. cbn [and_then]. now rewrite Hp.
    + intros ->. cbn [and_then text_or_braces].
      now destruct (parse_asteroid "{}").
Qed.

(** ** [handleFetchAsteroid] *)

Lemma fetch_try_cases (st : AppState) :
  (exists m : string,
     fetch_try apiKey generate_asteroid generate_mining generate_threat
       parse_asteroid parse_mining parse_threat st = (st, Thrown m)
     /\ (falsy apiKey = true
         \/ fetchAsteroidData apiKey generate_asteroid parse_asteroid
              (asteroidQuery st) = Thrown m))
  \/
  (exists data mining threat,
     falsy apiKey = false
     /\ fetchAsteroidData apiKey generate_asteroid parse_asteroid
          (asteroidQuery st) = Returned data
     /\ analyzeAsteroidResources apiKey generate_mining parse_mining data
        = Returned mining
     /\ assessThreat apiKey generate_threat parse_threat data = Returned threat
     /\ fetch_try apiKey generate_asteroid generate_mining generate_threat
          parse_asteroid parse_mining parse_threat st
        = (setThreatData (Some threat)
             (setMiningData (Some mining)
                (setAsteroidData (Some data) st)), Returned tt)).
Proof.
  unfold fetch_try. destruct (falsy apiKey) eqn:Hf.
  - left. exists "Please set API_KEY". split; [reflexivity | now left].
  - destruct (fetchAsteroidData apiKey generate_asteroid parse_asteroid
                (asteroidQuery st)) as [data|m] eqn:Hfetch.
    + right. destruct (analyzeAsteroidResources_returns data) as [mining Hm].
      destruct (assessThreat_returns data) as [threat Ht].
      exists data, mining, threat. rewrite Hm, Ht. now repeat split.
    + left. exists m. split; [reflexivity | now right].
Qed.

Lemma fetch_catch_cases (st : AppState) :
  let failed :=
    setError
      (Some "Failed to fetch asteroid data. Check API Key or try 'Apophis'.")
      st in
  (includes (toLowerCase (asteroidQuery st)) "apophis" = false ->
   fetch_catch apiKey generate_mining generate_threat parse_mining
     parse_threat toLowerCase st = (failed, Returned tt))
  /\
  (includes (toLowerCase (asteroidQuery st)) "apophis" = true ->
   exists mining threat,
     analyzeAsteroidResources apiKey generate_mining parse_mining
       MOCK_ASTEROID = Returned mining
     /\ assessThreat apiKey generate_threat parse_threat MOCK_ASTEROID
        = Returned threat
     /\ fetch_catch apiKey generate_mining generate_threat parse_mining
          parse_threat toLowerCase st
        = (setError None
             (setThreatData (Some threat)
                (setMiningData (Some mining)
                   (setAsteroidData (Some MOCK_ASTEROID) failed))),
           Returned tt)).
Proof.
  intros failed. unfold fetch_catch. cbn [asteroidQuery setError].
  split; intros Hinc; rewrite Hinc; [reflexivity|].
  destruct (analyzeAsteroidResources_returns MOCK_ASTEROID) as [mining Hm].
  destruct (assessThreat_returns MOCK_ASTEROID) as [threat Ht].
  exists mining, threat. rewrite Hm, Ht. now repeat split.
Qed.

(** X19: [handleFetchAsteroid] never throws and always ends with
    [loading = false] and the query untouched.  Either no error is left
    and an asteroid is shown together with the results the two analyses
    returned for it (the asteroid fetched, or [MOCK_ASTEROID] when fetching
    failed and the lower-cased query contains "apophis"); or the error
    message is left and the asteroid, mining and threat data are those of
    before the call. *)
Theorem handleFetchAsteroid_outcome (st : AppState) :
  let final := fst (handleFetchAsteroid apiKey generate_asteroid generate_mining
     generate_threat parse_asteroid parse_mining parse_threat toLowerCase st) in
  snd (handleFetchAsteroid apiKey generate_asteroid generate_mining
     generate_threat parse_asteroid parse_mining parse_threat toLowerCase st)
  = Returned tt
  /\ loading final = false
  /\ asteroidQuery final = asteroidQuery st
  /\ ((error final = None
       /\ exists data mining threat,
            asteroidData final = Some data
            /\ miningData final = Some mining
            /\ threatData final = Some threat
            /\ analyzeAsteroidResources apiKey generate_mining parse_mining
                 data = Returned mining
            /\ assessThreat apiKey generate_threat parse_threat data
               = Returned threat
            /\ (fetchAsteroidData apiKey generate_asteroid parse_asteroid
                  (asteroidQuery st) = Returned data
                \/ (data = MOCK_ASTEROID
                    /\ includes (toLowerCase (asteroidQuery st)) "apophis"
                       = true)))
      \/
      (error final =
         Some "Failed to fetch asteroid data. Check API Key or try 'Apophis'."
       /\ includes (toLowerCase (asteroidQuery st)) "apophis" = false
       /\ asteroidData final = asteroidData st
       /\ miningData final = miningData st
       /\ threatData final = threatData st)).
Proof.
  intros final. unfold final, handleFetchAsteroid.
  set (st1 := setError None (setLoading true st)).
  destruct (fetch_try_cases st1)
    as [[m [Htry _]]|[data [mining [threat [_ [Hfetch [Hm [Ht Htry]]]]]]]];
    rewrite Htry.
  - destruct (includes (toLowerCase (asteroidQuery st)) "apophis") eqn:Hinc.
    + destruct (proj2 (fetch_catch_cases st1) Hinc)
        as [mining [threat [Hm [Ht Hcatch]]]].
      rewrite Hcatch. cbn. repeat split.
      left. split; [reflexivity|].
      exists MOCK_ASTEROID, mining, threat. repeat split; auto.
    + rewrite (proj1 (fetch_catch_cases st1) Hinc). cbn. repeat split.
      right. now repeat split.
  - cbn. repeat split. left. split; [reflexivity|].
    exists data, mining, threat. repeat split; auto.
Qed.

(** X20: without an API key [handleFetchAsteroid] does not reach the
    service.  If the lower-cased query contains "apophis" it ends showing
    [MOCK_ASTEROID] with the fallback mining and threat results and no
    error; otherwise it ends with the error message and leaves the data
    shown before untouched. *)
Theorem handleFetchAsteroid_without_key (st : AppState) :
  falsy apiKey = true ->
  (includes (toLowerCase (asteroidQuery st)) "apophis" = true ->
   handleFetchAsteroid apiKey generate_asteroid generate_mining
     generate_threat parse_asteroid parse_mining parse_threat toLowerCase st =
   (mkAppState (asteroidQuery st) (Some MOCK_ASTEROID) (Some fallback_mining)
      (Some fallback_threat) false None, Returned tt))
  /\
  (includes (toLowerCase (asteroidQuery st)) "apophis" = false ->
   handleFetchAsteroid apiKey generate_asteroid generate_mining
     generate_threat parse_asteroid parse_mining parse_threat toLowerCase st =
   (mkAppState (asteroidQuery st) (asteroidData st) (miningData st)
      (threatData st) false
      (Some "Failed to fetch asteroid data. Check API Key or try 'Apophis'."),
    Returned tt)).
Proof.
  intros Hf. unfold handleFetchAsteroid, fetch_try. rewrite Hf.
  split; intros Hinc.
  - destruct (proj2 (fetch_catch_cases (setError None (setLoading true st))) Hinc)
      as [mining [threat [Hm [Ht Hcatch]]]].
    rewrite Hcatch.
    rewrite analyzeAsteroidResources_no_key in Hm by exact Hf.
    rewrite assessThreat_no_key in Ht by exact Hf.
    injection Hm as <-. injection Ht as <-. reflexivity.
  - rewrite (proj1 (fetch_catch_cases (setError None (setLoading true st))) Hinc).
    reflexivity.
Qed.
End GeminiService.

Section GeminiExamples.
Import String Gemini.
Local Open Scope string_scope.

Lemma analyses_never_throw_witness :
  analyzeAsteroidResources None (fun _ _ => Thrown "offline")
    (fun _ => Thrown "offline") MOCK_ASTEROID
  = Returned fallback_mining.
Proof.
  apply (analyses_never_throw None
           (fun _ _ => Thrown "offline") (fun _ _ => Thrown "offline")
           (fun _ _ => Thrown "offline")
           (fun _ => Thrown "offline") (fun _ => Thrown "offline")
           (fun _ => Thrown "offline") MOCK_ASTEROID "261136679").
  reflexivity.
Defined.

Lemma fetchAsteroidData_rethrows_witness :
  fetchAsteroidData (Some "key") (fun _ _ => Thrown "quota exceeded")
    (fun _ => Thrown "offline") "Bennu"
  = Thrown "quota exceeded".
Proof.
  apply (proj2 (fetchAsteroidData_rethrows (Some "key")
                  (fun _ _ => Thrown "quota exceeded")
                  (fun _ => Thrown "offline") "Bennu") "key");
    [reflexivity | discriminate | reflexivity].
Defined.

Lemma handleFetchAsteroid_without_key_witness :
  let st := mkAppState "Apophis" None None None false None in
  handleFetchAsteroid None (fun _ _ => Thrown "offline")
    (fun _ _ => Thrown "offline") (fun _ _ => Thrown "offline")
    (fun _ => Thrown "offline") (fun _ => Thrown "offline")
    (fun _ => Thrown "offline") ascii_toLowerCase st
  = (mkAppState "Apophis" (Some MOCK_ASTEROID) (Some fallback_mining)
       (Some fallback_threat) false None, Returned tt).
Proof.
  intros st.
  apply (handleFetchAsteroid_without_key None (fun _ _ => Thrown "offline")
           (fun _ _ => Thrown "offline") (fun _ _ => Thrown "offline")
           (fun _ => Thrown "offline") (fun _ => Thrown "offline")
           (fun _ => Thrown "offline") ascii_toLowerCase st);
    reflexivity.
Defined.
End GeminiExamples.

(** * [components/OrbitViz3D.tsx] *)

Lemma position_array_length (points : list Point3D) :
  length (OrbitViz.position_array points) = (3 * length points)%nat.
Proof.
  unfold OrbitViz.position_array.
  induction points as [|[[x y] z] points IH]; [reflexivity|].
  cbn [flat_map length app]. rewrite IH. lia.
Qed.

(** X21: what the scene draws for a target.  Without orbital data there is
    no line and no marker.  With orbital data the line has 151 vertices and
    its position buffer three numbers per vertex; the marker is always
    drawn, at the first point of the path; and for [a >= 0] and
    [0 <= e <= 1] that point is the periapsis, at distance
    [10 * a * (1 - e)] from the origin, whatever the mean anomaly of the
    record. *)
Theorem target_orbit_drawing (elements : OrbitalElements) :
  (OrbitViz.target_line_drawn None = false
   /\ OrbitViz.target_marker None = None)
  /\ length (OrbitViz.targetVectorPoints (Some elements)) = 151%nat
  /\ length (OrbitViz.position_array
               (OrbitViz.targetVectorPoints (Some elements))) = 453%nat
  /\ OrbitViz.target_line_drawn (Some elements) = true
  /\ OrbitViz.target_marker (Some elements) =
     Some (Orbit.orbit_point elements 150 0)
  /\ (0 <= a elements -> 0 <= e elements <= 1 ->
      Orbit.norm3 (Orbit.orbit_point elements 150 0) =
      10 * a elements * (1 - e elements)).
Proof.
  split; [split; reflexivity|].
  assert (Hlen : length (OrbitViz.targetVectorPoints (Some elements)) = 151%nat).
  { unfold OrbitViz.targetVectorPoints, OrbitViz.targetOrbit.
    rewrite map_id, calculateOrbitPath_map, length_map, length_seq.
    reflexivity. }
  split; [exact Hlen|]. split; [rewrite position_array_length, Hlen; reflexivity|].
  split; [|split].
  - unfold OrbitViz.target_line_drawn.
    destruct (OrbitViz.targetVectorPoints (Some elements));
      [discriminate | reflexivity].
  - unfold OrbitViz.target_marker, OrbitViz.targetOrbit.
    rewrite calculateOrbitPath_map. reflexivity.
  - intros Ha He.
    rewrite orbit_point_norm_ellipse by (try assumption; nra).
    replace (INR 0 / INR 150 * 2 * PI) with 0
      by (simpl (INR 0); unfold Rdiv; ring).
    rewrite cos_0. ring.
Qed.

Lemma target_orbit_drawing_witness :
  Orbit.norm3 (Orbit.orbit_point apophis_orbit 150 0) =
  10 * a apophis_orbit * (1 - e apophis_orbit).
Proof.
  apply (target_orbit_drawing apophis_orbit); simpl; lra.
Defined.
